(** * Percent-of-return metrics: weekly rollup and master-history merge

    A shallow embedding of [percent_return/processor.py] (the normaliser
    and the 52-week aggregator) and of the two merge blocks of [app.py],
    with the properties of the written specification stated over it.

    Conventions of the embedding.
    - A pandas column that may hold NaN / NaT / pd.NA is an [option].
    - float64 values are exact rationals ([Q]); the arithmetic of the
      source is kept, its binary rounding is not modelled.
    - A timestamp is the integer count of nanoseconds since the epoch
      (datetime64[ns]).
    - [groupby] lists its groups in order of first appearance of the key;
      pandas sorts them by key.  Every group is consumed through its key
      or through a sum, so the order of groups is never observed. *)

From Stdlib Require Import String Ascii.
From Stdlib Require Import List ZArith QArith Qround Qreduction Bool Lia.
From Stdlib Require Import Permutation.
From Stdlib Require Import Sorted Lqa.
Import ListNotations.

Set Implicit Arguments.
Local Open Scope Z_scope.

(** ** Keys with decidable equality *)

Class EqKey (K : Type) := {
  keq : K -> K -> bool;
  keq_spec : forall x y, reflect (x = y) (keq x y)
}.

#[export] Instance EqKey_Z : EqKey Z :=
  {| keq := Z.eqb; keq_spec := Z.eqb_spec |}.

#[export] Instance EqKey_string : EqKey string :=
  {| keq := String.eqb; keq_spec := String.eqb_spec |}.

Lemma pair_keq_spec {A B} `{EqKey A} `{EqKey B} (x y : A * B) :
  reflect (x = y) (keq (fst x) (fst y) && keq (snd x) (snd y)).
Proof.
  destruct x as [a b], y as [a' b']; simpl.
  destruct (keq_spec a a'), (keq_spec b b'); simpl; constructor; congruence.
Qed.

#[export] Instance EqKey_pair {A B} `{EqKey A} `{EqKey B} : EqKey (A * B) :=
  {| keq := fun x y => keq (fst x) (fst y) && keq (snd x) (snd y);
     keq_spec := pair_keq_spec |}.

Lemma option_keq_spec {A} `{EqKey A} (x y : option A) :
  reflect (x = y)
    match x, y with
    | Some a, Some b => keq a b
    | None, None => true
    | _, _ => false
    end.
Proof.
  destruct x as [a|], y as [b|]; try (constructor; congruence).
  destruct (keq_spec a b); constructor; congruence.
Qed.

#[export] Instance EqKey_option {A} `{EqKey A} : EqKey (option A) :=
  {| keq := fun x y => match x, y with
                       | Some a, Some b => keq a b
                       | None, None => true
                       | _, _ => false
                       end;
     keq_spec := option_keq_spec |}.

Section Frames.
Context {K : Type} `{EqKey K}.

Definition mem (k : K) (l : list K) : bool := existsb (keq k) l.

(** [drop_duplicates(subset=key)]: the first row of every key is kept. *)
Fixpoint drop_dups_from {A} (key : A -> K) (seen : list K) (l : list A)
  : list A :=
  match l with
  | [] => []
  | x :: r =>
      if mem (key x) seen then drop_dups_from key seen r
      else x :: drop_dups_from key (key x :: seen) r
  end.

Definition drop_duplicates {A} (key : A -> K) (l : list A) : list A :=
  drop_dups_from key [] l.

(** The distinct values of a column, [unique()]. *)
Definition unique (l : list K) : list K := drop_duplicates (fun k => k) l.

(** [nunique()] of a column without missing values. *)
Definition nunique (l : list K) : Z := Z.of_nat (length (unique l)).

(** [groupby(key)]: each distinct key with the rows that carry it. *)
Definition groupby {A} (key : A -> K) (l : list A) : list (K * list A) :=
  map (fun k => (k, filter (fun x => keq (key x) k) l)) (unique (map key l)).

(** A series is a list of (index label, value); [lookup] reads a label. *)
Fixpoint lookup {V} (k : K) (s : list (K * V)) : option V :=
  match s with
  | [] => None
  | (k', v) :: r => if keq k' k then Some v else lookup k r
  end.

(** [left.join(right)]: one output row per matching right row, and one
    row with a missing value when nothing matches. *)
Definition join {A V} (left : list (K * A)) (right : list (K * V))
  : list (K * (A * option V)) :=
  flat_map
    (fun row =>
       match filter (fun kv => keq (fst kv) (fst row)) right with
       | [] => [(fst row, (snd row, None))]
       | ms => map (fun kv => (fst row, (snd row, Some (snd kv)))) ms
       end)
    left.
End Frames.

(** ** Text helpers used by the normaliser *)

Definition is_upper (c : ascii) : bool :=
  let n := nat_of_ascii c in (65 <=? n)%nat && (n <=? 90)%nat.

Definition is_digit (c : ascii) : bool :=
  let n := nat_of_ascii c in (48 <=? n)%nat && (n <=? 57)%nat.

(** [str.lower()] on the ASCII letters; other bytes are left as they are. *)
Fixpoint lower (s : string) : string :=
  match s with
  | EmptyString => EmptyString
  | String c r =>
      String (if is_upper c then ascii_of_nat (nat_of_ascii c + 32) else c)
             (lower r)
  end.

(** [p in s] for strings. *)
Fixpoint contains (p s : string) : bool :=
  String.prefix p s
  || match s with
     | EmptyString => false
     | String _ r => contains p r
     end.

Fixpoint take_while {A} (f : A -> bool) (l : list A) : list A :=
  match l with
  | [] => []
  | x :: r => if f x then x :: take_while f r else []
  end.

Definition newline : ascii := ascii_of_nat 10.

(** [re.search(r"(\d{5,6})$", s)]: the leftmost start from which five or
    six digits reach the end of the string; [$] also matches just before a
    final newline. *)
Definition search_suffix_5_6 (l : list ascii) : option (list ascii) :=
  let core :=
    match rev l with
    | c :: r => if Ascii.eqb c newline then r else c :: r
    | [] => []
    end in
  let run := take_while is_digit core in
  if (6 <=? length run)%nat then Some (rev (firstn 6 run))
  else if (length run =? 5)%nat then Some (rev run)
  else None.

(** [re.search(r"(\d{4,6})", s)]: the leftmost run of at least four
    digits, of which at most six are taken. *)
Fixpoint search_run_4_6 (l : list ascii) : option (list ascii) :=
  match l with
  | [] => None
  | _ :: r =>
      let run := take_while is_digit l in
      if (4 <=? length run)%nat then Some (firstn 6 run)
      else search_run_4_6 r
  end.

Definition extract_asset (s : string) : string :=
  let l := list_ascii_of_string s in
  match search_suffix_5_6 l with
  | Some m => string_of_list_ascii m
  | None =>
      match search_run_4_6 l with
      | Some m2 => string_of_list_ascii m2
      | None => s
      end
  end.

Definition INCLUDE_TYPES : list string :=
  ["breakdown"; "corrective"; "preventive"; "preventative"; "pm";
   "inspection"; "campaign"]%string.

(** ** Column inference *)

(** Assignment [d[k] = v] in an insertion-ordered dict. *)
Fixpoint dict_set {V} (k : string) (v : V) (d : list (string * V))
  : list (string * V) :=
  match d with
  | [] => [(k, v)]
  | (k', v') :: r =>
      if String.eqb k' k then (k', v) :: r else (k', v') :: dict_set k v r
  end.

Fixpoint find_map {A B} (f : A -> option B) (l : list A) : option B :=
  match l with
  | [] => None
  | x :: r => match f x with Some y => Some y | None => find_map f r end
  end.

Definition _best_col (cols : list string) (patterns : list string)
  : option string :=
  let lc := fold_left (fun d c => dict_set (lower c) c d) cols [] in
  find_map
    (fun p =>
       find_map (fun kv => if contains p (fst kv) then Some (snd kv) else None)
                lc)
    patterns.

Definition mappings : list (string * list string) :=
  [ ("work_order", ["work_order"; "wo"; "workorder"; "work order"]);
    ("equipment", ["equipment"; "asset"; "equipment id"; "asset id"]);
    ("type", ["type"; "work_type"; "work type"; "wo_type"]);
    ("assigned_to",
      ["assigned_to"; "assigned"; "tech"; "assigned to"; "assignee"]);
    ("date_reported",
      ["date_reported"; "reported"; "opened"; "date reported";
       "date_reported"]);
    ("date_completed",
      ["date_completed"; "completed"; "closed"; "date completed";
       "date_completed"]) ]%string.

Definition required_columns : list string :=
  ["work_order"; "equipment"; "type"; "assigned_to"; "date_reported";
   "date_completed"]%string.

(** The loop that fills [col_map]; [if col:] holds of every column found,
    since no pattern is empty. *)
Definition col_map_of (cols : list string) : list (string * string) :=
  fold_left
    (fun m sp =>
       match _best_col cols (snd sp) with
       | Some col => dict_set col (fst sp) m
       | None => m
       end)
    mappings [].

(** ** Normaliser *)

Definition timestamp := Z.

Definition ns_per_day : Z := 86400 * 1000000000.

(** [Series.clip(lo, hi)] on one value. *)
Definition clip (lo hi x : Z) : Z := Z.min hi (Z.max lo x).

(** A normalised maintenance record, one row of the frame that
    [normalize_df] returns. *)
Record record := {
  work_order : string;
  equipment : string;
  type_ : string;
  assigned_to : string;
  date_reported : option timestamp;
  date_completed : timestamp;
  asset_number : string;
  iso_week : Z;
  day : Z
}.

Section Normalizer.
(** What a spreadsheet cell holds is left open.  pandas supplies the
    three conversions; each is total: [to_datetime] is called with
    [errors="coerce"] and answers NaT ([None]) instead of failing, and
    [astype(str)] renders any object.  The parse of a cell is taken to
    be independent of the other cells of its column, and the ISO week
    is a function of the calendar day. *)
Variable cell : Type.
Variable NA : cell.
Variable to_datetime : cell -> option timestamp.
Variable astype_str : cell -> string.
Variable isocalendar_week : Z -> Z.

(** A raw table: its header and its rows, cells in header order.  Header
    labels are text, and a table whose header carries one label twice
    after renaming is outside the model ([getitem] reads the first). *)
Record frame := { columns : list string; rows : list (list cell) }.

Fixpoint index_of (c : string) (cols : list string) : nat :=
  match cols with
  | [] => O
  | c' :: r => if String.eqb c' c then O else S (index_of c r)
  end.

(** [df[c]] on one row; a row shorter than the header reads as NA. *)
Definition getitem (cols : list string) (c : string) (row : list cell)
  : cell :=
  nth (index_of c cols) row NA.

(** [df.rename(columns=col_map)]. *)
Definition rename (col_map : list (string * string)) (df : frame) : frame :=
  {| columns :=
       map (fun c => match lookup c col_map with
                     | Some std => std
                     | None => c
                     end) (columns df);
     rows := rows df |}.

(** [if c not in df.columns: df[c] = pd.NA]. *)
Definition ensure_column (df : frame) (c : string) : frame :=
  if mem c (columns df) then df
  else
    let w := length (columns df) in
    {| columns := columns df ++ [c];
       rows := map (fun r => firstn w (r ++ repeat NA w) ++ [NA])
                   (rows df) |}.

(** The frame reads column [c] as NA on every row. *)
Definition reads_NA (df : frame) (c : string) : Prop :=
  forall row, In row (rows df) -> getitem (columns df) c row = NA.

(** A row after date parsing and string normalisation, before the
    filters. *)
Record parsed := {
  p_work_order : string;
  p_equipment : string;
  p_type : string;
  p_assigned_to : string;
  p_date_reported : option timestamp;
  p_date_completed : option timestamp;
  p_asset_number : string
}.

Definition parse_row (cols : list string) (row : list cell) : parsed :=
  let equipment := astype_str (getitem cols "equipment" row) in
  {| p_work_order := astype_str (getitem cols "work_order" row);
     p_equipment := equipment;
     p_type := lower (astype_str (getitem cols "type" row));
     p_assigned_to := astype_str (getitem cols "assigned_to" row);
     p_date_reported := to_datetime (getitem cols "date_reported" row);
     p_date_completed := to_datetime (getitem cols "date_completed" row);
     p_asset_number := extract_asset equipment |}.

(** [mask1 | mask2]. *)
Definition keep_row (p : parsed) : bool :=
  contains "ibot" (lower (p_equipment p))
  || existsb (fun k => contains k (p_type p)) INCLUDE_TYPES.

(** [dropna(subset=["date_completed"])] followed by the derivation of
    [iso_week] and [day]. *)
Definition dated (p : parsed) : option record :=
  match p_date_completed p with
  | None => None
  | Some t =>
      let d := t / ns_per_day in
      Some {| work_order := p_work_order p;
              equipment := p_equipment p;
              type_ := p_type p;
              assigned_to := p_assigned_to p;
              date_reported := p_date_reported p;
              date_completed := t;
              asset_number := p_asset_number p;
              iso_week := clip 1 52 (isocalendar_week d);
              day := d |}
  end.

Fixpoint filter_map {A B} (f : A -> option B) (l : list A) : list B :=
  match l with
  | [] => []
  | x :: r =>
      match f x with
      | Some y => y :: filter_map f r
      | None => filter_map f r
      end
  end.

Definition prepare (df : frame) : frame :=
  fold_left ensure_column required_columns
            (rename (col_map_of (columns df)) df).

Definition normalize_df (df : frame) : list record :=
  let df := prepare df in
  let parsed_rows := map (parse_row (columns df)) (rows df) in
  filter_map dated (filter keep_row parsed_rows).
End Normalizer.

(** ** Numeric helpers *)

Definition Qsum (l : list Q) : Q := fold_right Qplus 0%Q l.

(** [Series.mean()] of a non-empty group. *)
Definition mean (l : list Q) : Q :=
  (Qsum l / inject_Z (Z.of_nat (length l)))%Q.

(** Sorting by insertion, for [sorted], [sort_values] and the median. *)
Fixpoint insert_sorted {A} (leb : A -> A -> bool) (x : A) (l : list A)
  : list A :=
  match l with
  | [] => [x]
  | y :: r => if leb x y then x :: l else y :: insert_sorted leb x r
  end.

Definition sort_by {A} (leb : A -> A -> bool) (l : list A) : list A :=
  fold_right (insert_sorted leb) [] l.

Definition sort_values_Q (l : list Q) : list Q := sort_by Qle_bool l.

(** [Series.median()]: missing values are skipped; the result is missing
    when nothing is left. *)
Definition dropna {A} (l : list (option A)) : list A :=
  flat_map (fun o => match o with Some x => [x] | None => [] end) l.

Definition median (l : list (option Q)) : option Q :=
  let s := sort_values_Q (dropna l) in
  let n := length s in
  match n with
  | O => None
  | _ =>
      if Nat.even n
      then Some ((nth (n / 2 - 1) s 0 + nth (n / 2) s 0) / 2)%Q
      else Some (nth (n / 2) s 0%Q)
  end.

(** [GroupBy.first()]: the first value of the group that is not missing. *)
Fixpoint first_valid {A} (l : list (option A)) : option A :=
  match l with
  | [] => None
  | Some x :: _ => Some x
  | None :: r => first_valid r
  end.

(** Round half to even, as [numpy.rint]. *)
Definition rint (q : Q) : Z :=
  let f := Qfloor q in
  match (q - inject_Z f ?= 1 # 2)%Q with
  | Lt => f
  | Gt => f + 1
  | Eq => if Z.even f then f else f + 1
  end.

(** [Series.round(2)] on one value. *)
Definition round2 (q : Q) : Q := Qred (inject_Z (rint (q * 100)) / 100).

Definition fillna {A} (d : A) (o : option A) : A :=
  match o with Some x => x | None => d end.

Definition flatten {A} (o : option (option A)) : option A :=
  match o with Some x => x | None => None end.

Definition Zsum (l : list Z) : Z := fold_right Z.add 0 l.

(** ** Aggregator *)

(** One row of the weekly summary, without its [Week] label.  Every
    column is nullable, as in the frame and in the CSV it is saved to. *)
Record weekly_row := {
  Weekly_Return_pct : option Q;
  MTTR_hrs : option Q;
  WO_Volume : option Z;
  pct_leq_24h : option Q;
  pct_leq_48h : option Q
}.

Definition table := list (Z * weekly_row).

(** STEP A: same-tech duplicates removed. *)
Definition step_a (df : list record) : list record :=
  drop_duplicates
    (fun r => (work_order r, asset_number r, assigned_to r, day r)) df.

Definition pairs_of (df_a : list record) : list (Z * string * string) :=
  drop_duplicates (fun t => t)
    (map (fun r => (day r, asset_number r, assigned_to r)) df_a).

Definition daily_completions_of (df_a : list record) : list (Z * Z) :=
  map (fun g => (fst g, Z.of_nat (length (snd g))))
      (groupby (fun t => fst (fst t)) (pairs_of df_a)).

(** The aggregate of one (day, asset_number) group: [occurrences] counts
    the work orders and [techs] the distinct technicians. *)
Record asset_day := { occurrences : Z; techs : Z }.

Definition grouped_asset_day_of (df_a : list record)
  : list ((Z * string) * asset_day) :=
  map (fun g =>
         (fst g,
          {| occurrences := Z.of_nat (length (map work_order (snd g)));
             techs := nunique (map assigned_to (snd g)) |}))
      (groupby (fun r => (day r, asset_number r)) df_a).

Definition is_return (a : asset_day) : bool :=
  (occurrences a >? 1) && (techs a >=? 2).

Definition daily_returns_of (df_a : list record) : list (Z * Z) :=
  map (fun g =>
         (fst g, Zsum (map (fun row => Z.b2z (is_return (snd row))) (snd g))))
      (groupby (fun row => fst (fst row)) (grouped_asset_day_of df_a)).

(** One row of [daily]. *)
Record daily_row := { daily_completions : Z; returned_bots : Z }.

(** [pd.concat([...], axis=1).fillna(0)]: the union of the two indexes. *)
Definition daily_of (df_a : list record) : list (Z * daily_row) :=
  let comps := daily_completions_of df_a in
  let rets := daily_returns_of df_a in
  map (fun d =>
         (d, {| daily_completions := fillna 0 (lookup d comps);
                returned_bots := fillna 0 (lookup d rets) |}))
      (unique (map fst comps ++ map fst rets)).

Definition daily_return_pct (r : daily_row) : Q :=
  (inject_Z (returned_bots r) / inject_Z (daily_completions r) * 100)%Q.

Definition daily_active_of (df_a : list record) : list (Z * daily_row) :=
  filter (fun row => daily_completions (snd row) >? 0) (daily_of df_a).

(** [df.drop_duplicates(subset=["day"]).set_index("day")["iso_week"].to_dict()],
    read with [dict.get]. *)
Definition day_to_week_of (df : list record) : list (Z * Z) :=
  map (fun r => (day r, iso_week r)) (drop_duplicates day df).

(** The columns [iso_week] and [daily_return_pct] of [daily_active]: the
    week is read from [day_to_week], built from the normalised frame [df]
    (not from the de-duplicated one), and is missing for a day the mapping
    does not hold. *)
Definition daily_active_weeks (df : list record) : list (option Z * Q) :=
  let day_to_week := day_to_week_of df in
  map (fun row => (lookup (fst row) day_to_week, daily_return_pct (snd row)))
      (daily_active_of (step_a df)).

(** A [groupby] leaves out the rows whose key is missing. *)
Definition dropna_keys {K V} (l : list (option K * V)) : list (K * V) :=
  flat_map (fun kv => match fst kv with
                      | Some k => [(k, snd kv)]
                      | None => []
                      end) l.

(** Weekly Return %: the mean of [daily_return_pct] per [iso_week]. *)
Definition weekly_return_of (df : list record) : list (Z * Q) :=
  map (fun g => (fst g, mean (map snd (snd g))))
      (groupby fst (dropna_keys (daily_active_weeks df))).

(** [(date_completed - date_reported).dt.total_seconds() / 3600.0]. *)
Definition ttr_hours (r : record) : option Q :=
  match date_reported r with
  | Some reported =>
      Some (inject_Z (date_completed r - reported) / 1000000000 / 3600)%Q
  | None => None
  end.

(** Unique work orders per week. *)
Definition wo_volume_of (df : list record) : list (Z * Z) :=
  map (fun g => (fst g, nunique (map work_order (snd g))))
      (groupby iso_week df).

(** [groupby(["iso_week", "work_order"])["ttr_hours"].first()]. *)
Definition wo_ttr_of (df : list record) : list ((Z * string) * option Q) :=
  map (fun g => (fst g, first_valid (map ttr_hours (snd g))))
      (groupby (fun r => (iso_week r, work_order r)) df).

Definition weekly_mttr_of (df : list record) : list (Z * option Q) :=
  map (fun g => (fst g, median (map snd (snd g))))
      (groupby (fun row => fst (fst row)) (wo_ttr_of df)).

Definition notna {A} (o : option A) : bool :=
  match o with Some _ => true | None => false end.

(** [ttr_hours <= hours]; a missing value compares false. *)
Definition leq_hours (hours : Q) (o : option Q) : bool :=
  match o with Some t => Qle_bool t hours | None => false end.

Definition count_per_week (rows : list ((Z * string) * option Q))
  : list (Z * Z) :=
  map (fun g => (fst g, nunique (map (fun row => snd (fst row)) (snd g))))
      (groupby (fun row => fst (fst row)) rows).

(** Division of two series: the labels are aligned, and a label missing
    on either side gives a missing value. *)
Definition div_aligned (a b : list (Z * Z)) : list (Z * option Q) :=
  map (fun w =>
         (w,
          match lookup w a, lookup w b with
          | Some x, Some y => Some (inject_Z x / inject_Z y * 100)%Q
          | _, _ => None
          end))
      (unique (map fst a ++ map fst b)).

Definition pct_leq (df : list record) (hours : Q) : list (Z * option Q) :=
  let wo_ttr := wo_ttr_of df in
  let total := count_per_week (filter (fun row => notna (snd row)) wo_ttr) in
  let leq :=
    count_per_week (filter (fun row => leq_hours hours (snd row)) wo_ttr) in
  div_aligned leq total.

(** [range(1, 53)]. *)
Definition weeks : list Z := map Z.of_nat (seq 1 52).

(** [Series.where(cond)] on one value. *)
Definition where_ {A} (cond : bool) (o : option A) : option A :=
  if cond then o else None.

(** The body of [compute_metrics] after normalisation. *)
Definition weekly_metrics (df : list record) : table :=
  let result := map (fun w => (w, tt)) weeks in
  let result :=
    join (join (join (join (join result (weekly_return_of df))
                           (weekly_mttr_of df))
                     (wo_volume_of df))
               (pct_leq df 24))
         (pct_leq df 48) in
  map (fun row =>
         match row with
         | (w, (((((_, weekly_return_pct), mttr_hrs), wo_volume), p24), p48)) =>
             let wo_volume := fillna 0 wo_volume in
             let weekly_return_pct := fillna 0%Q weekly_return_pct in
             let has_wo := wo_volume >? 0 in
             (w,
              {| Weekly_Return_pct := Some (round2 weekly_return_pct);
                 MTTR_hrs := where_ has_wo (flatten mttr_hrs);
                 WO_Volume := Some wo_volume;
                 pct_leq_24h :=
                   option_map round2 (where_ has_wo (flatten p24));
                 pct_leq_48h :=
                   option_map round2 (where_ has_wo (flatten p48)) |})
         end)
      result.

Section Pipeline.
Variable cell : Type.
Variable NA : cell.
Variable to_datetime : cell -> option timestamp.
Variable astype_str : cell -> string.
Variable isocalendar_week : Z -> Z.

Definition compute_metrics (df : frame cell) : table :=
  weekly_metrics
    (normalize_df NA to_datetime astype_str isocalendar_week df).

(** [pd.read_excel] either raises or returns a frame; nothing around it
    catches. *)
Variable exn : Type.
Variable buffer : Type.
Variable read_excel : buffer -> exn + frame cell.

Definition load_workbook (path_or_buffer : buffer) : exn + frame cell :=
  read_excel path_or_buffer.

Definition process_file (path_or_buffer : buffer) : exn + table :=
  match load_workbook path_or_buffer with
  | inl e => inl e
  | inr df => inr (compute_metrics df)
  end.
End Pipeline.

(** ** Merge into the master history ([app.py]) *)

(** [wk in m.index], for a table indexed by [Week]. *)
Definition in_index (wk : Z) (t : table) : bool := mem wk (map fst t).

(** [n.loc[wk]]: the row labelled [wk].  Week labels are unique in every
    table the application writes. *)
Definition loc (wk : Z) (t : table) : option weekly_row := lookup wk t.

(** [m.loc[wk] = row]: the rows labelled [wk] are replaced; a new label is
    appended. *)
Definition loc_set (wk : Z) (row : weekly_row) (t : table) : table :=
  if in_index wk t
  then map (fun r => if fst r =? wk then (wk, row) else r) t
  else t ++ [(wk, row)].

(** The placeholder [[wk] + [pd.NA] * ...]: only the week is set. *)
Definition blank : weekly_row :=
  {| Weekly_Return_pct := None; MTTR_hrs := None; WO_Volume := None;
     pct_leq_24h := None; pct_leq_48h := None |}.

(** [frame.loc[frame['WO Volume'] > 0, 'Week']] as a set. *)
Definition has_volume (r : weekly_row) : bool :=
  match WO_Volume r with Some v => v >? 0 | None => false end.

Definition nonzero_weeks (t : table) : list Z :=
  map fst (filter (fun r => has_volume (snd r)) t).

(** [sorted(list(new_nonzero.intersection(master_nonzero)))]. *)
Definition overlapping_of (master_df df_weekly : table) : list Z :=
  let new_nonzero := nonzero_weeks df_weekly in
  let master_nonzero := nonzero_weeks master_df in
  sort_by Z.leb
    (unique (filter (fun w => mem w master_nonzero) new_nonzero)).

(** The loop that makes the master hold every week of 1..52. *)
Definition ensure_weeks (m n : table) : table :=
  fold_left
    (fun m wk =>
       if in_index wk m then m
       else match loc wk n with
            | Some row => loc_set wk row m
            | None => loc_set wk blank m
            end)
    weeks m.

(** The guarded replacement
    [try: if int(n.loc[wk, 'WO Volume']) > 0: m.loc[wk] = n.loc[wk]
     except Exception: m.loc[wk] = n.loc[wk]];
    [int] raises on a missing value. *)
Definition take_new (n m : table) (wk : Z) : table :=
  match loc wk n with
  | Some row =>
      match WO_Volume row with
      | Some v => if v >? 0 then loc_set wk row m else m
      | None => loc_set wk row m
      end
  | None => m
  end.

(** Whether the guarded replacement takes the incoming row of [wk]. *)
Definition takes (n : table) (wk : Z) : bool :=
  match loc wk n with
  | Some row => match WO_Volume row with Some v => v >? 0 | None => true end
  | None => false
  end.

(** [merged.sort_values('Week')]. *)
Definition sort_values_Week (t : table) : table :=
  sort_by (fun a b => fst a <=? fst b) t.

(** The block under 'Merge and save (no overlaps)'. *)
Definition merge_no_overlaps (master_df df_weekly : table) : table :=
  let m := ensure_weeks master_df df_weekly in
  let m := fold_left (take_new df_weekly) (map fst df_weekly) m in
  sort_values_Week m.

(** The block under 'Apply merge & save'. *)
Definition apply_merge (master_df df_weekly : table)
    (overlapping overwrite_weeks : list Z) : table :=
  let n := df_weekly in
  let m := ensure_weeks master_df n in
  let m :=
    fold_left
      (fun m wk => match loc wk n with
                   | Some row => loc_set wk row m
                   | None => m
                   end)
      overwrite_weeks m in
  let m :=
    fold_left
      (fun m wk =>
         if mem wk overlapping && negb (mem wk overwrite_weeks) then m
         else take_new n m wk)
      (map fst n) m in
  sort_values_Week m.

(** [st.multiselect(label, options)] returns the options the user picked. *)
Definition multiselect (options picked : list Z) : list Z :=
  filter (fun w => mem w picked) options.

(** The weeks to overwrite: the selection among the overlapping weeks, or
    all of them when the checkbox is ticked. *)
Definition overwrite_weeks_of (overlapping picked : list Z)
    (overwrite_all : bool) : list Z :=
  if overwrite_all then overlapping else multiselect overlapping picked.

(** The merge controls when a master exists: which block runs depends on
    whether any week overlaps. *)
Definition merge_master (master_df df_weekly : table) (picked : list Z)
    (overwrite_all : bool) : table :=
  let overlapping := overlapping_of master_df df_weekly in
  match overlapping with
  | [] => merge_no_overlaps master_df df_weekly
  | _ =>
      apply_merge master_df df_weekly overlapping
        (overwrite_weeks_of overlapping picked overwrite_all)
  end.

(** The records of one asset on one day. *)
Definition asset_day_records (d : Z) (a : string) (l : list record)
  : list record :=
  filter (fun r => keq (day r, asset_number r) (d, a)) l.

(** The active days of week [w]: the days of [daily] with
    [daily_completions > 0] that [day_to_week] sends to [w]. *)
Definition active_days_of_week (df : list record) (w : Z)
  : list (Z * daily_row) :=
  filter
    (fun row =>
       (daily_completions (snd row) >? 0)
       && keq (lookup (fst row) (day_to_week_of df)) (Some w))
    (daily_of (step_a df)).

(** The distinct work orders completed in week [w]. *)
Definition work_orders_of_week (df : list record) (w : Z) : list string :=
  unique (map work_order (filter (fun r => keq (iso_week r) w) df)).

(** The rows of work order [wo] in week [w]. *)
Definition work_order_rows (df : list record) (w : Z) (wo : string)
  : list record :=
  filter (fun r => keq (iso_week r, work_order r) (w, wo)) df.

(** The time to repair of a work order in a week as [wo_ttr] holds it:
    the first [ttr_hours] among its rows that is not missing. *)
Definition ttr_first_valid (df : list record) (w : Z) (wo : string)
  : option Q :=
  first_valid (map ttr_hours (work_order_rows df w wo)).

(** The same read from the first-seen row of the work order, whether or
    not its [ttr_hours] is missing. *)
Definition ttr_first_row (df : list record) (w : Z) (wo : string)
  : option Q :=
  match work_order_rows df w wo with
  | r :: _ => ttr_hours r
  | [] => None
  end.

(** MTTR of a week taken over first-seen rows: the median over the
    week's distinct work orders, missing when the week has none. *)
Definition mttr_first_row (df : list record) (w : Z) : option Q :=
  match work_orders_of_week df w with
  | [] => None
  | wos => median (map (ttr_first_row df w) wos)
  end.

(** The times to repair of week [w], one per distinct work order. *)
Definition week_ttrs (df : list record) (w : Z) : list (option Q) :=
  map (ttr_first_valid df w) (work_orders_of_week df w).

(** How many of a week's work orders pass a test on their time to
    repair. *)
Definition count_ttr (p : option Q -> bool) (df : list record) (w : Z) : Z :=
  Z.of_nat (length (filter p (week_ttrs df w))).

(** The closure percentage of week [w] for a threshold: the work orders
    with a time to repair within [hours] over those with a time to
    repair, times 100, rounded; missing when either count has no entry
    for the week. *)
Definition closure_pct (df : list record) (w : Z) (hours : Q) : option Q :=
  let total := count_ttr notna df w in
  let leq := count_ttr (leq_hours hours) df w in
  if (total =? 0) || (leq =? 0) then None
  else Some (round2 (inject_Z leq / inject_Z total * 100)).

(** The table has WO Volume > 0 in week [wk]. *)
Definition week_has_volume (wk : Z) (t : table) : bool :=
  existsb (fun r => (fst r =? wk) && has_volume (snd r)) t.

(** The row of week [w] as the assembly leaves it, read off the five
    series by label. *)
Definition assembled_row (df : list record) (w : Z) : weekly_row :=
  let wo_volume := fillna 0 (lookup w (wo_volume_of df)) in
  let has_wo := wo_volume >? 0 in
  {| Weekly_Return_pct :=
       Some (round2 (fillna 0%Q (lookup w (weekly_return_of df))));
     MTTR_hrs := where_ has_wo (flatten (lookup w (weekly_mttr_of df)));
     WO_Volume := Some wo_volume;
     pct_leq_24h :=
       option_map round2 (where_ has_wo (flatten (lookup w (pct_leq df 24))));
     pct_leq_48h :=
       option_map round2 (where_ has_wo (flatten (lookup w (pct_leq df 48))))
  |}.

(** ** Worked inputs *)

(** A small spreadsheet vocabulary for the examples: a cell is blank,
    text, or a timestamp; text never parses as a date; weeks are counted
    in blocks of seven days from the epoch. *)
Module Sheet.
Inductive cell := Blank | Txt (s : string) | Stamp (t : timestamp).

Definition to_datetime (c : cell) : option timestamp :=
  match c with Stamp t => Some t | _ => None end.

Definition astype_str (c : cell) : string :=
  match c with
  | Txt s => s
  | Blank => "<NA>"
  | Stamp _ => "timestamp"
  end.

Definition week_of_day (d : Z) : Z := d / 7 + 1.

Definition hour : Z := 3600 * 1000000000.

Definition moment (d h : Z) : cell := Stamp (d * ns_per_day + h * hour).

Definition header : list string :=
  ["Work Order"; "Asset"; "Type"; "Tech"; "Reported"; "Completed"]%string.

(** Day 70 (week 11): asset 00123 is served by two technicians.
    Day 81 (week 12): a work order whose reported date is not a date.
    The third row is not iBot work; the last has no completion date. *)
Definition returns : frame cell :=
  {| columns := header;
     rows :=
       [ [Txt "W1"; Txt "iBot-00123"; Txt "Breakdown"; Txt "ann";
          moment 70 0; moment 70 5];
         [Txt "W2"; Txt "iBot-00123"; Txt "Breakdown"; Txt "bob";
          moment 70 0; moment 70 6];
         [Txt "W3"; Txt "truck"; Txt "other"; Txt "bob";
          moment 70 0; moment 70 30];
         [Txt "W4"; Txt "iBot-00124"; Txt "pm"; Txt "bob";
          Txt "n/a"; moment 81 6];
         [Txt "W5"; Txt "iBot-00125"; Txt "pm"; Txt "bob";
          moment 70 0; Txt "pending"] ] |}.

(** One work order with two rows in week 11: the first row has no
    usable reported date, the second was reported five hours before
    completion. *)
Definition late_report : frame cell :=
  {| columns := header;
     rows :=
       [ [Txt "W1"; Txt "iBot-00123"; Txt "Breakdown"; Txt "ann";
          Txt "n/a"; moment 70 5];
         [Txt "W1"; Txt "iBot-00123"; Txt "Breakdown"; Txt "bob";
          moment 70 1; moment 70 6] ] |}.

Definition normalize : frame cell -> list record :=
  normalize_df Blank to_datetime astype_str week_of_day.

Definition compute : frame cell -> table :=
  compute_metrics Blank to_datetime astype_str week_of_day.

(** A reader that fails on a missing workbook. *)
Definition read_excel (b : option (frame cell)) : string + frame cell :=
  match b with
  | Some df => inr df
  | None => inl "not a workbook"%string
  end.

Definition volume_row (v : Z) : weekly_row :=
  {| Weekly_Return_pct := Some 0%Q; MTTR_hrs := None;
     WO_Volume := Some v; pct_leq_24h := None; pct_leq_48h := None |}.

Definition master : table :=
  [(5, volume_row 10); (6, volume_row 4); (7, volume_row 0)].

Definition incoming : table :=
  [(5, volume_row 3); (6, volume_row 0); (7, volume_row 2)].
End Sheet.

(** The lower-cased index of the header, [lc]. *)
Definition lc_of (cols : list string) : list (string * string) :=
  fold_left (fun d c => dict_set (lower c) c d) cols [].

(** ** Previous-month summary ([app.py]) *)

(** [DataFrame.tail(n)]. *)
Definition tail {A} (n : nat) (l : list A) : list A :=
  skipn (length l - n) l.

(** [reconstruct_count(row, pct_col)]: [round(pct / 100.0 * vol)], and 0
    when [float], [int] or [round] raises, which they do on a missing
    value. *)
Definition reconstruct_count (row : weekly_row)
    (pct_col : weekly_row -> option Q) : Z :=
  match pct_col row, WO_Volume row with
  | Some pct, Some vol => rint (pct / 100 * inject_Z vol)
  | _, _ => 0
  end.

(** The dict that [compute_previous_month_summary] returns. *)
Record summary := {
  weekly_return_avg : option Q;
  mttr_median : option Q;
  wo_volume_sum : Z;
  pct_leq24 : option Q;
  pct_leq48 : option Q
}.

(** [Series.dropna().mean()]: missing when nothing is left. *)
Definition mean_dropna (l : list (option Q)) : option Q :=
  match dropna l with
  | [] => None
  | xs => Some (mean xs)
  end.

(** The last four active weeks of a master table. *)
Definition last_weeks_of (master_df : table) : table :=
  let active := filter (fun r => has_volume (snd r)) master_df in
  tail 4 (sort_values_Week active).

Definition compute_previous_month_summary (master_df : option table)
  : option summary :=
  match master_df with
  | None => None
  | Some master_df =>
      let active := filter (fun r => has_volume (snd r)) master_df in
      match active with
      | [] => None
      | _ =>
          let last_weeks := tail 4 (sort_values_Week active) in
          let wo_sum :=
            Zsum (map (fun r => fillna 0 (WO_Volume (snd r))) last_weeks) in
          let pct_of (col : weekly_row -> option Q) :=
            if wo_sum >? 0
            then Some (inject_Z
                         (Zsum (map (fun r => reconstruct_count (snd r) col)
                                    last_weeks))
                       / inject_Z wo_sum * 100)%Q
            else None in
          Some {| weekly_return_avg :=
                    mean_dropna
                      (map (fun r => Weekly_Return_pct (snd r)) last_weeks);
                  mttr_median :=
                    median (map (fun r => MTTR_hrs (snd r)) last_weeks);
                  wo_volume_sum := wo_sum;
                  pct_leq24 := pct_of pct_leq_24h;
                  pct_leq48 := pct_of pct_leq_48h |}
      end
  end.

(** * Properties *)

(** ** Facts about keyed lists *)

Section FrameFacts.
Context {K : Type} `{EqKey K}.

Lemma keq_refl (k : K) : keq k k = true.
Proof. destruct (keq_spec k k); congruence. Qed.

Lemma keq_true (x y : K) : keq x y = true <-> x = y.
Proof. destruct (keq_spec x y); split; congruence. Qed.

Lemma mem_In (k : K) (l : list K) : mem k l = true <-> In k l.
Proof.
  unfold mem; rewrite existsb_exists; split.
  - intros [x [Hx Hk]]; apply keq_true in Hk; now subst.
  - intros Hk; exists k; split; [assumption | apply keq_refl].
Qed.

Lemma mem_false (k : K) (l : list K) : mem k l = false <-> ~ In k l.
Proof.
  rewrite <- mem_In; destruct (mem k l); split; congruence.
Qed.

Lemma drop_dups_from_In {A} (key : A -> K) (l : list A) :
  forall seen x, In x (drop_dups_from key seen l) -> In x l.
Proof.
  induction l as [|y r IH]; simpl; intros seen x Hx; [assumption|].
  destruct (mem (key y) seen).
  - right; eapply IH; eassumption.
  - destruct Hx as [-> | Hx]; [now left | right; eapply IH; eassumption].
Qed.

Lemma drop_dups_from_keys {A} (key : A -> K) (l : list A) :
  forall seen k,
    In k (map key (drop_dups_from key seen l))
    <-> In k (map key l) /\ ~ In k seen.
Proof.
  induction l as [|y r IH]; simpl; intros seen k; [tauto|].
  destruct (mem (key y) seen) eqn:E.
  - apply mem_In in E; rewrite IH; split.
    + tauto.
    + intros [[Hy | Hk] Hs]; [subst k; tauto | tauto].
  - apply mem_false in E; simpl; rewrite IH; simpl; split.
    + intros [Hy | [Hk Hs]]; [subst k; tauto | tauto].
    + intros [[Hy | Hk] Hs]; [now left|].
      destruct (keq_spec (key y) k); [now left | right; tauto].
Qed.

Lemma drop_dups_from_NoDup {A} (key : A -> K) (l : list A) :
  forall seen, NoDup (map key (drop_dups_from key seen l)).
Proof.
  induction l as [|y r IH]; simpl; intros seen; [constructor|].
  destruct (mem (key y) seen); [apply IH|].
  simpl; constructor; [|apply IH].
  rewrite drop_dups_from_keys; simpl; tauto.
Qed.

Lemma drop_duplicates_In {A} (key : A -> K) (l : list A) (x : A) :
  In x (drop_duplicates key l) -> In x l.
Proof. apply drop_dups_from_In. Qed.

Lemma drop_duplicates_keys {A} (key : A -> K) (l : list A) (k : K) :
  In k (map key (drop_duplicates key l)) <-> In k (map key l).
Proof. unfold drop_duplicates; rewrite drop_dups_from_keys; simpl; tauto. Qed.

Lemma drop_duplicates_NoDup {A} (key : A -> K) (l : list A) :
  NoDup (map key (drop_duplicates key l)).
Proof. apply drop_dups_from_NoDup. Qed.

Lemma unique_In (l : list K) (k : K) : In k (unique l) <-> In k l.
Proof.
  unfold unique.
  rewrite <- (map_id (drop_duplicates (fun k => k) l)).
  rewrite drop_duplicates_keys, map_id; tauto.
Qed.

Lemma unique_NoDup (l : list K) : NoDup (unique l).
Proof.
  unfold unique.
  rewrite <- (map_id (drop_duplicates (fun k => k) l)).
  apply drop_duplicates_NoDup.
Qed.

Lemma groupby_index {A} (key : A -> K) (l : list A) :
  map fst (groupby key l) = unique (map key l).
Proof. unfold groupby; rewrite map_map; simpl; apply map_id. Qed.

Lemma lookup_tabulate {V} (f : K -> V) (ks : list K) (k : K) :
  lookup k (map (fun k => (k, f k)) ks)
  = if mem k ks then Some (f k) else None.
Proof.
  induction ks as [|k' r IH]; simpl; [reflexivity|].
  destruct (keq_spec k' k) as [Hk|Hk], (keq_spec k k') as [Hk'|Hk'];
    simpl; congruence.
Qed.
End FrameFacts.

Lemma flat_map_singleton {A B} (f : A -> list B) (g : A -> B) (l : list A) :
  (forall x, f x = [g x]) -> flat_map f l = map g l.
Proof.
  intros Hf; induction l as [|x r IH]; simpl; [reflexivity|].
  now rewrite Hf, IH.
Qed.

Section JoinFacts.
Context {K : Type} `{EqKey K}.

Lemma lookup_None {V} (k : K) (s : list (K * V)) :
  lookup k s = None <-> ~ In k (map fst s).
Proof.
  induction s as [|[k' v] r IH]; simpl; [tauto|].
  destruct (keq_spec k' k); rewrite ?IH; split; try congruence; tauto.
Qed.

Lemma lookup_In {V} (k : K) (v : V) (s : list (K * V)) :
  lookup k s = Some v -> In (k, v) s.
Proof.
  induction s as [|[k' v'] r IH]; simpl; [discriminate|].
  destruct (keq_spec k' k); [|auto].
  intros E; injection E as <-; subst; now left.
Qed.

Lemma filter_key_lookup {V} (k : K) (s : list (K * V)) :
  NoDup (map fst s) ->
  filter (fun kv => keq (fst kv) k) s
  = match lookup k s with Some v => [(k, v)] | None => [] end.
Proof.
  induction s as [|[k' v] r IH]; simpl; [reflexivity|].
  intros Hn; inversion Hn as [|? ? Hk Hr]; subst.
  destruct (keq_spec k' k) as [->|Hne]; [|auto].
  f_equal.
  rewrite (IH Hr).
  destruct (lookup k r) eqn:E; [|reflexivity].
  exfalso; revert E; change (lookup k r <> Some v0).
  apply lookup_None in Hk; congruence.
Qed.

(** With unique labels on the right, a left join keeps the left rows,
    one for one. *)
Lemma join_lookup {A V} (left : list (K * A)) (right : list (K * V)) :
  NoDup (map fst right) ->
  join left right
  = map (fun row => (fst row, (snd row, lookup (fst row) right))) left.
Proof.
  intros Hn; unfold join.
  apply flat_map_singleton; intros row.
  rewrite (filter_key_lookup (fst row) right Hn).
  destruct (lookup (fst row) right); reflexivity.
Qed.

Lemma index_of_aggregate {A V} (key : A -> K) (f : K * list A -> V)
    (l : list A) :
  map fst (map (fun g => (fst g, f g)) (groupby key l))
  = unique (map key l).
Proof. rewrite map_map; simpl; apply groupby_index. Qed.

Lemma aggregate_NoDup {A V} (key : A -> K) (f : K * list A -> V)
    (l : list A) :
  NoDup (map fst (map (fun g => (fst g, f g)) (groupby key l))).
Proof. rewrite index_of_aggregate; apply unique_NoDup. Qed.

(** Reading an aggregate at a label: the group is the rows of that
    label. *)
Lemma lookup_aggregate {A V} (key : A -> K) (f : K * list A -> V)
    (l : list A) (k : K) :
  lookup k (map (fun g => (fst g, f g)) (groupby key l))
  = if mem k (map key l)
    then Some (f (k, filter (fun x => keq (key x) k) l))
    else None.
Proof.
  unfold groupby; rewrite map_map; simpl.
  rewrite (lookup_tabulate
             (fun k => f (k, filter (fun x => keq (key x) k) l))).
  destruct (mem k (unique (map key l))) eqn:E1,
           (mem k (map key l)) eqn:E2; try reflexivity.
  - apply mem_In in E1; apply -> unique_In in E1; apply mem_In in E1;
      congruence.
  - apply mem_In in E2; apply <- unique_In in E2; apply mem_In in E2;
      congruence.
Qed.
End JoinFacts.

(** ** The assembled table *)

Lemma div_aligned_NoDup (a b : list (Z * Z)) :
  NoDup (map fst (div_aligned a b)).
Proof.
  unfold div_aligned; rewrite map_map; simpl; rewrite map_id.
  apply unique_NoDup.
Qed.

(** Every joined series has unique labels, so the five joins add no row:
    the result is one row per week of [range(1, 53)]. *)
Lemma weekly_metrics_assembled (df : list record) :
  weekly_metrics df = map (fun w => (w, assembled_row df w)) weeks.
Proof.
  unfold weekly_metrics.
  rewrite (join_lookup _ (weekly_return_of df));
    [|apply aggregate_NoDup].
  rewrite (join_lookup _ (weekly_mttr_of df)); [|apply aggregate_NoDup].
  rewrite (join_lookup _ (wo_volume_of df)); [|apply aggregate_NoDup].
  rewrite (join_lookup _ (pct_leq df 24)); [|apply div_aligned_NoDup].
  rewrite (join_lookup _ (pct_leq df 48)); [|apply div_aligned_NoDup].
  rewrite !map_map; reflexivity.
Qed.

Lemma NoDup_map_inj {A B} (f : A -> B) (l : list A) :
  (forall x y, f x = f y -> x = y) -> NoDup l -> NoDup (map f l).
Proof.
  intros Hf; induction 1 as [|x r Hx Hr IH]; simpl; constructor; [|exact IH].
  rewrite in_map_iff; intros [y [E Hy]]; apply Hf in E; now subst.
Qed.

Lemma weeks_range (w : Z) : In w weeks <-> 1 <= w <= 52.
Proof.
  unfold weeks; rewrite in_map_iff; split.
  - intros [n [<- Hn]]; apply in_seq in Hn; lia.
  - intros Hw; exists (Z.to_nat w); split; [lia|].
    apply in_seq; lia.
Qed.

Lemma weeks_NoDup : NoDup weeks.
Proof.
  unfold weeks; apply NoDup_map_inj; [|apply seq_NoDup].
  intros x y; lia.
Qed.

Lemma loc_weekly_metrics (df : list record) (w : Z) :
  1 <= w <= 52 -> loc w (weekly_metrics df) = Some (assembled_row df w).
Proof.
  intros Hw; unfold loc; rewrite weekly_metrics_assembled.
  rewrite (lookup_tabulate (assembled_row df)).
  apply weeks_range, mem_In in Hw; now rewrite Hw.
Qed.

Lemma In_weekly_metrics (df : list record) (w : Z) (row : weekly_row) :
  In (w, row) (weekly_metrics df)
  <-> 1 <= w <= 52 /\ row = assembled_row df w.
Proof.
  rewrite weekly_metrics_assembled, in_map_iff, <- weeks_range; split.
  - intros [w' [E Hw]]; injection E as -> <-; tauto.
  - intros [Hw ->]; exists w; tauto.
Qed.

(** ** Shape of the aggregator output *)

(** What the merge asks of an incoming table holds of every table the
    aggregator writes: one row per week label, and an integer volume in
    every row. *)
Lemma weekly_metrics_incoming (df : list record) :
  NoDup (map fst (weekly_metrics df))
  /\ forall w row, In (w, row) (weekly_metrics df) -> WO_Volume row <> None.
Proof.
  split.
  - rewrite weekly_metrics_assembled, map_map; cbn [fst].
    rewrite map_id; exact weeks_NoDup.
  - intros w row Hin.
    destruct (proj1 (In_weekly_metrics df w row) Hin) as [_ E].
    subst row; discriminate.
Qed.

Lemma weekly_metrics_index (df : list record) :
  map fst (weekly_metrics df) = weeks.
Proof.
  rewrite weekly_metrics_assembled, map_map; apply map_id.
Qed.

(** ** Weeks without volume *)

Lemma unique_nonempty {K} `{EqKey K} (l : list K) :
  l <> [] -> unique l <> [].
Proof. destruct l; [congruence | discriminate]. Qed.

Lemma nunique_pos {K} `{EqKey K} (l : list K) : l <> [] -> 0 < nunique l.
Proof.
  intros Hl; apply unique_nonempty in Hl; unfold nunique.
  destruct (unique l); [congruence | simpl; lia].
Qed.

Lemma filter_nonempty {A} (f : A -> bool) (l : list A) (x : A) :
  In x l -> f x = true -> filter f l <> [].
Proof.
  intros Hx Hf E.
  assert (Hin : In x (filter f l)) by (apply filter_In; tauto).
  now rewrite E in Hin.
Qed.

Lemma lookup_wo_volume (df : list record) (w : Z) :
  lookup w (wo_volume_of df)
  = if mem w (map iso_week df)
    then Some (nunique (map work_order
                          (filter (fun r => iso_week r =? w) df)))
    else None.
Proof.
  unfold wo_volume_of.
  exact (lookup_aggregate iso_week
           (fun g => nunique (map work_order (snd g))) df w).
Qed.

(** A week has volume exactly when some record falls in it. *)
Lemma wo_volume_zero (df : list record) (w : Z) :
  fillna 0 (lookup w (wo_volume_of df)) = 0 <-> ~ In w (map iso_week df).
Proof.
  rewrite lookup_wo_volume.
  destruct (mem w (map iso_week df)) eqn:E.
  - apply mem_In in E; split; [|tauto].
    simpl; intros Hz; exfalso.
    apply in_map_iff in E; destruct E as [r [Hr Hin]].
    assert (Hpos : 0 < nunique (map work_order
                                  (filter (fun r => iso_week r =? w) df))).
    { apply nunique_pos; intros Hn; apply map_eq_nil in Hn.
      revert Hn; apply (filter_nonempty _ _ r Hin); lia. }
    lia.
  - apply mem_false in E; simpl; tauto.
Qed.

Lemma dropna_keys_In {K V} (l : list (option K * V)) (k : K) (v : V) :
  In (k, v) (dropna_keys l) <-> In (Some k, v) l.
Proof.
  unfold dropna_keys; rewrite in_flat_map; split.
  - intros [[o v'] [Hin Hk]]; simpl in Hk; destruct o; simpl in Hk; [|tauto].
    destruct Hk as [E|[]]; inversion E; subst; assumption.
  - intros Hin; exists (Some k, v); simpl; tauto.
Qed.

Lemma day_to_week_In (df : list record) (d w : Z) :
  lookup d (day_to_week_of df) = Some w ->
  exists r, In r df /\ day r = d /\ iso_week r = w.
Proof.
  intros E; apply lookup_In in E; unfold day_to_week_of in E.
  apply in_map_iff in E; destruct E as [r [E Hr]].
  injection E as <- <-; exists r; split; [|tauto].
  apply drop_duplicates_In in Hr; exact Hr.
Qed.

(** The weeks that carry a Weekly Return % are weeks of some record. *)
Lemma weekly_return_week (df : list record) (w : Z) (q : Q) :
  lookup w (weekly_return_of df) = Some q -> In w (map iso_week df).
Proof.
  intros E; apply lookup_In in E.
  apply (in_map fst) in E; cbn [fst] in E.
  unfold weekly_return_of in E; rewrite index_of_aggregate in E.
  apply unique_In, in_map_iff in E; destruct E as [[w' p] [Hw Hin]].
  simpl in Hw; subst w'.
  apply dropna_keys_In in Hin; unfold daily_active_weeks in Hin.
  apply in_map_iff in Hin; destruct Hin as [row [E _]].
  injection E as E _; apply day_to_week_In in E.
  destruct E as [r [Hr [_ Hw]]]; apply in_map_iff; now exists r.
Qed.

Lemma round2_0 : round2 0 = 0%Q.
Proof. reflexivity. Qed.

(** In a week without volume the three repair columns are missing and the
    return rate is the filled-in 0.0. *)
Lemma assembled_row_zero_volume (df : list record) (w : Z) :
  WO_Volume (assembled_row df w) = Some 0 ->
  MTTR_hrs (assembled_row df w) = None
  /\ pct_leq_24h (assembled_row df w) = None
  /\ pct_leq_48h (assembled_row df w) = None
  /\ Weekly_Return_pct (assembled_row df w) = Some 0%Q.
Proof.
  unfold assembled_row.
  cbn [WO_Volume MTTR_hrs pct_leq_24h pct_leq_48h Weekly_Return_pct].
  intros E; injection E as E; rewrite E.
  change (0 >? 0) with false; cbn [where_ option_map].
  split; [reflexivity|]; split; [reflexivity|]; split; [reflexivity|].
  apply wo_volume_zero in E.
  destruct (lookup w (weekly_return_of df)) eqn:Ew;
    [|cbn [fillna]; now rewrite round2_0].
  apply weekly_return_week in Ew; tauto.
Qed.

(** ** Merge: reading one week after each step *)

Lemma in_index_loc (wk : Z) (t : table) :
  in_index wk t = true <-> loc wk t <> None.
Proof.
  unfold in_index, loc; rewrite mem_In, lookup_None; split; [tauto|].
  destruct (in_dec Z.eq_dec wk (map fst t)); tauto.
Qed.

Lemma loc_replace_other (wk wk' : Z) (row : weekly_row) (t : table) :
  wk' <> wk ->
  loc wk' (map (fun r => if fst r =? wk then (wk, row) else r) t)
  = loc wk' t.
Proof.
  intros Hne; unfold loc; induction t as [|[k v] r IH]; simpl;
    [reflexivity|].
  rewrite <- IH.
  destruct (Z.eqb_spec k wk) as [->|Hk]; simpl; [|reflexivity].
  destruct (Z.eqb_spec wk wk'); [congruence | reflexivity].
Qed.

Lemma loc_replace_same (wk : Z) (row : weekly_row) (t : table) :
  in_index wk t = true ->
  loc wk (map (fun r => if fst r =? wk then (wk, row) else r) t)
  = Some row.
Proof.
  unfold in_index, loc; induction t as [|[k v] r IH]; simpl;
    [discriminate|].
  destruct (Z.eqb_spec k wk) as [->|Hk]; simpl.
  - now rewrite Z.eqb_refl.
  - destruct (Z.eqb_spec wk k) as [->|_]; [congruence|].
    destruct (Z.eqb_spec k wk); [congruence | exact IH].
Qed.

Lemma loc_replace (wk wk' : Z) (row : weekly_row) (t : table) :
  in_index wk t = true ->
  loc wk' (map (fun r => if fst r =? wk then (wk, row) else r) t)
  = if wk' =? wk then Some row else loc wk' t.
Proof.
  intros Hin; destruct (Z.eqb_spec wk' wk) as [->|Hne].
  - now apply loc_replace_same.
  - now apply loc_replace_other.
Qed.

Lemma loc_append (wk wk' : Z) (row : weekly_row) (t : table) :
  in_index wk t = false ->
  loc wk' (t ++ [(wk, row)]) = if wk' =? wk then Some row else loc wk' t.
Proof.
  unfold in_index, loc; induction t as [|[k v] r IH]; simpl; intros Hin.
  - destruct (Z.eqb_spec wk wk'), (Z.eqb_spec wk' wk); congruence.
  - apply orb_false_elim in Hin; destruct Hin as [Hk Hr].
    rewrite (IH Hr).
    destruct (Z.eqb_spec k wk') as [->|_]; [|reflexivity].
    apply Z.eqb_neq in Hk.
    destruct (Z.eqb_spec wk' wk); congruence.
Qed.

(** After [m.loc[wk] = row] the label [wk] reads [row] and every other
    label reads what it read before. *)
Lemma loc_loc_set (wk wk' : Z) (row : weekly_row) (t : table) :
  loc wk' (loc_set wk row t) = if wk' =? wk then Some row else loc wk' t.
Proof.
  unfold loc_set; destruct (in_index wk t) eqn:E.
  - now apply loc_replace.
  - now apply loc_append.
Qed.

Lemma loc_ensure_step (n : table) (wk w : Z) (m : table) :
  loc wk (if in_index w m then m
          else match loc w n with
               | Some row => loc_set w row m
               | None => loc_set w blank m
               end)
  = match loc wk m with
    | Some row => Some row
    | None => if wk =? w then Some (fillna blank (loc wk n)) else None
    end.
Proof.
  destruct (in_index w m) eqn:E.
  - destruct (loc wk m) eqn:El; [reflexivity|].
    destruct (Z.eqb_spec wk w) as [->|_]; [|reflexivity].
    apply in_index_loc in E; congruence.
  - assert (Hw : loc w m = None).
    { destruct (loc w m) eqn:El; [|reflexivity].
      assert (Ht : in_index w m = true) by (apply in_index_loc; congruence).
      congruence. }
    destruct (loc w n) eqn:En; rewrite loc_loc_set;
      destruct (Z.eqb_spec wk w) as [->|_];
      rewrite ?Hw, ?En; simpl; try reflexivity;
      destruct (loc wk m); reflexivity.
Qed.

(** The completion loop leaves the weeks the master holds and fills a
    missing week of 1..52 from the incoming table, or with the
    placeholder. *)
Lemma loc_ensure_weeks (m n : table) (wk : Z) :
  loc wk (ensure_weeks m n)
  = match loc wk m with
    | Some row => Some row
    | None => if mem wk weeks then Some (fillna blank (loc wk n)) else None
    end.
Proof.
  unfold ensure_weeks; generalize weeks as ws; intros ws; revert m.
  induction ws as [|w ws IH]; intros m; simpl.
  - destruct (loc wk m); reflexivity.
  - rewrite IH, loc_ensure_step.
    destruct (loc wk m); [reflexivity|].
    destruct (Z.eqb_spec wk w); simpl; reflexivity.
Qed.

Lemma mem_cons_Z (wk w : Z) (l : list Z) :
  mem wk (w :: l) = (wk =? w) || mem wk l.
Proof. reflexivity. Qed.

(** The loop over [overwrite_weeks]. *)
Lemma loc_overwrite_loop (n : table) (ows : list Z) (wk : Z) :
  forall m,
    loc wk (fold_left (fun m w => match loc w n with
                                  | Some row => loc_set w row m
                                  | None => m
                                  end) ows m)
    = if mem wk ows
      then match loc wk n with Some row => Some row | None => loc wk m end
      else loc wk m.
Proof.
  induction ows as [|w ows IH]; intros m; [reflexivity|].
  cbn [fold_left]; rewrite IH, mem_cons_Z.
  destruct (Z.eqb_spec wk w) as [->|Hne]; simpl.
  - destruct (loc w n) eqn:En.
    + rewrite loc_loc_set, Z.eqb_refl; destruct (mem w ows); reflexivity.
    + destruct (mem w ows); reflexivity.
  - destruct (loc w n) eqn:En; [|reflexivity].
    rewrite loc_loc_set.
    destruct (Z.eqb_spec wk w); [congruence | reflexivity].
Qed.

Lemma loc_take_new (n m : table) (w wk : Z) :
  loc wk (take_new n m w)
  = if (wk =? w) && takes n wk then loc wk n else loc wk m.
Proof.
  unfold take_new, takes.
  destruct (Z.eqb_spec wk w) as [->|Hne]; simpl.
  - destruct (loc w n) as [row|] eqn:En; [|reflexivity].
    destruct (WO_Volume row) as [v|]; [destruct (v >? 0)|];
      rewrite ?loc_loc_set, ?Z.eqb_refl; reflexivity.
  - destruct (loc w n) as [row|] eqn:En; [|reflexivity].
    destruct (WO_Volume row) as [v|]; [destruct (v >? 0)|];
      rewrite ?loc_loc_set; try reflexivity;
      destruct (Z.eqb_spec wk w); congruence.
Qed.

(** The loop over [n.index], with the weeks in [skip] passed over. *)
Lemma loc_take_loop (n : table) (skip : Z -> bool) (idx : list Z) (wk : Z) :
  forall m,
    loc wk (fold_left (fun m w => if skip w then m else take_new n m w)
                      idx m)
    = if mem wk idx && negb (skip wk) && takes n wk
      then loc wk n else loc wk m.
Proof.
  induction idx as [|w idx IH]; intros m; [reflexivity|].
  cbn [fold_left]; rewrite IH, mem_cons_Z.
  destruct (Z.eqb_spec wk w) as [<-|Hne]; simpl.
  - destruct (skip wk); simpl.
    + rewrite !andb_false_r; reflexivity.
    + rewrite loc_take_new, Z.eqb_refl; simpl.
      destruct (takes n wk); rewrite ?andb_true_r, ?andb_false_r;
        [destruct (mem wk idx)|]; reflexivity.
  - destruct (mem wk idx && negb (skip wk) && takes n wk); [reflexivity|].
    destruct (skip w); [reflexivity|].
    rewrite loc_take_new.
    destruct (Z.eqb_spec wk w); [congruence | reflexivity].
Qed.

Lemma lookup_insert_sorted {V} (leb : Z * V -> Z * V -> bool) (x : Z * V)
    (l : list (Z * V)) (wk : Z) :
  (forall a b, leb a b = (fst a <=? fst b)) ->
  lookup wk (insert_sorted leb x l) = lookup wk (x :: l).
Proof.
  intros Hleb; induction l as [|y r IH]; [reflexivity|].
  cbn [insert_sorted]; rewrite Hleb.
  destruct (Z.leb_spec (fst x) (fst y)) as [Hle|Hlt]; [reflexivity|].
  destruct x as [kx vx], y as [ky vy]; simpl in *.
  rewrite IH; simpl.
  destruct (Z.eqb_spec ky wk), (Z.eqb_spec kx wk); try reflexivity; lia.
Qed.

(** Sorting by week does not change what a week label reads. *)
Lemma loc_sort_values_Week (t : table) (wk : Z) :
  loc wk (sort_values_Week t) = loc wk t.
Proof.
  unfold loc, sort_values_Week, sort_by.
  induction t as [|x r IH]; [reflexivity|].
  cbn [fold_right]; rewrite lookup_insert_sorted by reflexivity.
  destruct x as [k v]; simpl; now rewrite IH.
Qed.

(** ** Merge: the overlap set and the resolution rule *)

Lemma In_insert_sorted {A} (leb : A -> A -> bool) (x y : A) (l : list A) :
  In x (insert_sorted leb y l) <-> x = y \/ In x l.
Proof.
  induction l as [|z r IH]; simpl; [intuition|].
  destruct (leb y z); simpl; [intuition|].
  rewrite IH; intuition.
Qed.

Lemma In_sort_by {A} (leb : A -> A -> bool) (x : A) (l : list A) :
  In x (sort_by leb l) <-> In x l.
Proof.
  unfold sort_by; induction l as [|y r IH]; simpl; [tauto|].
  rewrite In_insert_sorted, IH; intuition.
Qed.

Lemma mem_nonzero_weeks (wk : Z) (t : table) :
  mem wk (nonzero_weeks t) = week_has_volume wk t.
Proof.
  unfold nonzero_weeks, week_has_volume.
  induction t as [|[k v] r IH]; simpl; [reflexivity|].
  destruct (has_volume v); simpl.
  - rewrite <- IH, andb_true_r, (Z.eqb_sym k wk); reflexivity.
  - now rewrite andb_false_r.
Qed.

(** A week overlaps exactly when both tables have volume in it. *)
Lemma mem_overlapping (master_df df_weekly : table) (wk : Z) :
  mem wk (overlapping_of master_df df_weekly)
  = week_has_volume wk master_df && week_has_volume wk df_weekly.
Proof.
  rewrite <- !mem_nonzero_weeks.
  destruct (mem wk (nonzero_weeks master_df)
            && mem wk (nonzero_weeks df_weekly)) eqn:E.
  - apply andb_prop in E; destruct E as [Em En].
    apply mem_In; unfold overlapping_of.
    apply In_sort_by, unique_In, filter_In.
    apply mem_In in En; tauto.
  - apply mem_false; intros Hin; unfold overlapping_of in Hin.
    apply In_sort_by in Hin; apply -> (@unique_In Z _) in Hin.
    apply filter_In in Hin; destruct Hin as [Hn Hm].
    apply mem_In in Hn; rewrite Hn, Hm in E; discriminate.
Qed.

Lemma mem_overwrite_weeks (overlapping picked : list Z) (all : bool)
    (wk : Z) :
  mem wk (overwrite_weeks_of overlapping picked all) = true ->
  mem wk overlapping = true.
Proof.
  unfold overwrite_weeks_of, multiselect; destruct all; [tauto|].
  rewrite !mem_In, filter_In; tauto.
Qed.

(** With unique week labels, the table has volume in [wk] exactly when
    the row labelled [wk] has. *)
Lemma week_has_volume_loc (wk : Z) (t : table) :
  NoDup (map fst t) ->
  week_has_volume wk t
  = match loc wk t with Some row => has_volume row | None => false end.
Proof.
  unfold week_has_volume, loc; induction t as [|[k v] r IH]; simpl;
    [reflexivity|].
  intros Hn; inversion Hn as [|? ? Hk Hr]; subst.
  destruct (Z.eqb_spec k wk) as [->|Hne]; simpl; [|auto].
  destruct (has_volume v); [reflexivity|].
  rewrite (IH Hr).
  apply (lookup_None wk r) in Hk; now rewrite Hk.
Qed.

Lemma takes_has_volume (n : table) (wk : Z) :
  NoDup (map fst n) ->
  (forall w row, In (w, row) n -> WO_Volume row <> None) ->
  takes n wk = week_has_volume wk n.
Proof.
  intros Hn Hint; rewrite (week_has_volume_loc wk n Hn); unfold takes.
  destruct (loc wk n) as [row|] eqn:E; [|reflexivity].
  apply lookup_In, Hint in E; unfold has_volume.
  destruct (WO_Volume row); [reflexivity | congruence].
Qed.

Lemma takes_in_index (n : table) (wk : Z) :
  takes n wk = true -> mem wk (map fst n) = true.
Proof.
  unfold takes; intros Ht; apply (in_index_loc wk n).
  destruct (loc wk n); [discriminate | discriminate].
Qed.

Lemma loc_merge_no_overlaps (m n : table) (wk : Z) :
  loc wk (merge_no_overlaps m n)
  = if takes n wk then loc wk n else loc wk (ensure_weeks m n).
Proof.
  unfold merge_no_overlaps; rewrite loc_sort_values_Week.
  rewrite (loc_take_loop n (fun _ => false) (map fst n) wk).
  simpl; rewrite andb_true_r.
  destruct (takes n wk) eqn:E; [|now rewrite andb_false_r].
  now rewrite (takes_in_index n wk E).
Qed.

Lemma loc_apply_merge (m n : table) (overlapping overwrite_weeks : list Z)
    (wk : Z) :
  loc wk (apply_merge m n overlapping overwrite_weeks)
  = if negb (mem wk overlapping && negb (mem wk overwrite_weeks))
       && takes n wk
    then loc wk n
    else if mem wk overwrite_weeks
         then match loc wk n with
              | Some row => Some row
              | None => loc wk (ensure_weeks m n)
              end
         else loc wk (ensure_weeks m n).
Proof.
  unfold apply_merge; rewrite loc_sort_values_Week.
  rewrite (loc_take_loop n
             (fun w => mem w overlapping && negb (mem w overwrite_weeks))
             (map fst n) wk).
  rewrite loc_overwrite_loop.
  destruct (takes n wk) eqn:E.
  - rewrite (takes_in_index n wk E); reflexivity.
  - now rewrite !andb_false_r.
Qed.

Section MergeResolver.
Variables master_df df_weekly : table.
Variable picked : list Z.
Variable overwrite_all : bool.

Let overlapping := overlapping_of master_df df_weekly.
Let overwrite_weeks :=
  overwrite_weeks_of overlapping picked overwrite_all.

End MergeResolver.

(** ** Daily return detection *)

Lemma drop_dups_from_length {K} `{EqKey K} {A} (key : A -> K) (l : list A) :
  forall seen, (length (drop_dups_from key seen l) <= length l)%nat.
Proof.
  induction l as [|x r IH]; intros seen; simpl; [lia|].
  destruct (mem (key x) seen); [specialize (IH seen) | simpl;
    specialize (IH (key x :: seen))]; lia.
Qed.

Lemma unique_length {K} `{EqKey K} (l : list K) :
  (length (unique l) <= length l)%nat.
Proof. apply drop_dups_from_length. Qed.

Lemma NoDup_two {A} (l : list A) (x y : A) :
  NoDup l -> In x l -> In y l -> x <> y -> (2 <= length l)%nat.
Proof.
  intros Hn Hx Hy Hne.
  destruct l as [|a [|b r]]; simpl in *; [tauto | | lia].
  destruct Hx as [<-|[]], Hy as [<-|[]]; congruence.
Qed.

Lemma NoDup_all_equal {A} (l : list A) :
  NoDup l -> (forall x y, In x l -> In y l -> x = y) -> (length l <= 1)%nat.
Proof.
  intros Hn Heq; destruct l as [|a [|b r]]; simpl; try lia.
  exfalso; inversion Hn as [|? ? Ha _]; subst; apply Ha.
  left; apply Heq; simpl; tauto.
Qed.

Lemma lookup_grouped_asset_day (df_a : list record) (d : Z) (a : string) :
  lookup (d, a) (grouped_asset_day_of df_a)
  = if mem (d, a) (map (fun r => (day r, asset_number r)) df_a)
    then Some {| occurrences :=
                   Z.of_nat (length (asset_day_records d a df_a));
                 techs :=
                   nunique (map assigned_to (asset_day_records d a df_a)) |}
    else None.
Proof.
  unfold grouped_asset_day_of.
  rewrite (lookup_aggregate (fun r => (day r, asset_number r))
             (fun g => {| occurrences :=
                            Z.of_nat (length (map work_order (snd g)));
                          techs := nunique (map assigned_to (snd g)) |})).
  cbn [snd]; rewrite length_map; reflexivity.
Qed.

(** Every record keeps a representative with the same work order, asset,
    technician and day after STEP A. *)
Lemma step_a_representative (df : list record) (r : record) :
  In r df ->
  exists r', In r' (step_a df)
             /\ asset_number r' = asset_number r
             /\ assigned_to r' = assigned_to r
             /\ day r' = day r.
Proof.
  intros Hr; unfold step_a.
  set (key := fun r => (work_order r, asset_number r, assigned_to r, day r)).
  assert (Hk : In (key r) (map key (drop_duplicates key df))).
  { apply drop_duplicates_keys; now apply in_map. }
  apply in_map_iff in Hk; destruct Hk as [r' [E Hr']].
  exists r'; split; [assumption|].
  unfold key in E; injection E as _ -> -> ->; tauto.
Qed.

Lemma asset_day_records_In (d : Z) (a : string) (l : list record)
    (r : record) :
  In r (asset_day_records d a l)
  <-> In r l /\ day r = d /\ asset_number r = a.
Proof.
  unfold asset_day_records; rewrite filter_In.
  destruct (keq_spec (day r, asset_number r) (d, a)) as [E|E].
  - injection E as Hd Ha; tauto.
  - split; [intros [_ Hf]; discriminate|].
    intros [_ [Hd Ha]]; exfalso; apply E; congruence.
Qed.

Section ReturnDetection.
Variable df : list record.
Variable d : Z.
Variable a : string.

Let df_a := step_a df.
Let group := asset_day_records d a df_a.

(** The flag of the (day, asset) group: more than one occurrence and at
    least two distinct technicians among the de-duplicated records. *)
Lemma is_return_group :
  group <> [] ->
  exists g,
    lookup (d, a) (grouped_asset_day_of df_a) = Some g
    /\ occurrences g = Z.of_nat (length group)
    /\ techs g = nunique (map assigned_to group)
    /\ (is_return g = true <-> 1 < occurrences g /\ 2 <= techs g).
Proof.
  intros Hg; rewrite lookup_grouped_asset_day.
  assert (Hin : mem (d, a) (map (fun r => (day r, asset_number r)) df_a)
                = true).
  { destruct group as [|r rs] eqn:E; [congruence|].
    assert (Hr : In r group) by (rewrite E; now left).
    apply asset_day_records_In in Hr; destruct Hr as [Hr [<- <-]].
    apply mem_In, in_map_iff; now exists r. }
  rewrite Hin; eexists; split; [reflexivity|]; simpl.
  split; [reflexivity|]; split; [reflexivity|].
  unfold is_return; simpl.
  rewrite andb_true_iff, Z.gtb_lt, Z.geb_le; tauto.
Qed.

(** One technician only: not a return, however many records. *)
Lemma single_tech_not_return (g : asset_day) :
  lookup (d, a) (grouped_asset_day_of df_a) = Some g ->
  (forall r1 r2, In r1 df -> In r2 df ->
                 day r1 = d -> asset_number r1 = a ->
                 day r2 = d -> asset_number r2 = a ->
                 assigned_to r1 = assigned_to r2) ->
  is_return g = false.
Proof.
  rewrite lookup_grouped_asset_day.
  destruct (mem _ _); [|discriminate].
  intros E Hsame; injection E as <-; unfold is_return; simpl.
  fold group.
  assert (Hle : (length (unique (map assigned_to group)) <= 1)%nat).
  { apply NoDup_all_equal; [apply unique_NoDup|].
    intros x y Hx Hy.
    apply unique_In, in_map_iff in Hx; destruct Hx as [r1 [<- H1]].
    apply unique_In, in_map_iff in Hy; destruct Hy as [r2 [<- H2]].
    apply asset_day_records_In in H1, H2.
    destruct H1 as [H1 [? ?]], H2 as [H2 [? ?]].
    apply drop_duplicates_In in H1, H2; now apply Hsame. }
  unfold nunique; apply andb_false_intro2; lia.
Qed.

(** Two technicians on the asset that day: a return. *)
Lemma two_techs_return (r1 r2 : record) :
  In r1 df -> In r2 df ->
  day r1 = d -> asset_number r1 = a ->
  day r2 = d -> asset_number r2 = a ->
  assigned_to r1 <> assigned_to r2 ->
  exists g, lookup (d, a) (grouped_asset_day_of df_a) = Some g
            /\ is_return g = true.
Proof.
  intros H1 H2 D1 A1 D2 A2 Hne.
  apply step_a_representative in H1, H2.
  destruct H1 as [r1' [H1 [A1' [T1 D1']]]].
  destruct H2 as [r2' [H2 [A2' [T2 D2']]]].
  assert (G1 : In r1' group)
    by (apply asset_day_records_In; repeat split;
        [exact H1 | congruence | congruence]).
  assert (G2 : In r2' group)
    by (apply asset_day_records_In; repeat split;
        [exact H2 | congruence | congruence]).
  assert (Hg : group <> []) by (intros E; now rewrite E in G1).
  destruct (is_return_group Hg) as [g [El [Ho [Ht Hiff]]]].
  exists g; split; [assumption|]; apply Hiff.
  assert (Hu : (2 <= length (unique (map assigned_to group)))%nat).
  { apply (@NoDup_two _ _ (assigned_to r1') (assigned_to r2'));
      [apply unique_NoDup
      |apply unique_In; now apply in_map
      |apply unique_In; now apply in_map
      |congruence]. }
  pose proof (unique_length (map assigned_to group)) as Hl.
  rewrite length_map in Hl.
  rewrite Ho, Ht; unfold nunique; lia.
Qed.
End ReturnDetection.

(** ** Returned assets against daily completions *)

Lemma filter_map_comm {A B} (p : B -> bool) (g : A -> B) (l : list A) :
  filter p (map g l) = map g (filter (fun x => p (g x)) l).
Proof.
  induction l as [|x r IH]; simpl; [reflexivity|].
  destruct (p (g x)); simpl; now rewrite IH.
Qed.

Lemma sum_flags_le_length {X Y} (flag : X -> bool) (f : X -> list Y)
    (ks : list X) :
  (forall k, flag k = true -> (2 <= length (f k))%nat) ->
  0 <= Zsum (map (fun k => Z.b2z (flag k)) ks)
  /\ 2 * Zsum (map (fun k => Z.b2z (flag k)) ks)
     <= Z.of_nat (length (flat_map f ks)).
Proof.
  intros Hf; unfold Zsum.
  induction ks as [|k r [IH0 IH]]; cbn [map flat_map fold_right length];
    [lia|].
  rewrite length_app.
  destruct (flag k) eqn:E; cbn [Z.b2z].
  - apply Hf in E; lia.
  - lia.
Qed.

Lemma NoDup_flat_map_keyed {X Y} (f : X -> list Y) (proj : Y -> X)
    (ks : list X) :
  NoDup ks ->
  (forall k, NoDup (f k)) ->
  (forall k y, In y (f k) -> proj y = k) ->
  NoDup (flat_map f ks).
Proof.
  intros Hks Hf Hproj; induction Hks as [|k r Hk Hr IH]; simpl;
    [constructor|].
  apply NoDup_app; [apply Hf | exact IH|].
  intros y Hy Hin; apply in_flat_map in Hin; destruct Hin as [k' [Hk' Hy']].
  apply Hproj in Hy, Hy'; congruence.
Qed.

Section DailyCounts.
Variable df_a : list record.
Variable d : Z.

Let key2 := fun r : record => (day r, asset_number r).
Let group := fun k : Z * string => filter (fun r => keq (key2 r) k) df_a.
Let agg := fun k : Z * string =>
  {| occurrences := Z.of_nat (length (map work_order (group k)));
     techs := nunique (map assigned_to (group k)) |}.
Let keys_of_day :=
  filter (fun k : Z * string => keq (fst k) d) (unique (map key2 df_a)).
Let pairs_of_day :=
  filter (fun t : Z * string * string => keq (fst (fst t)) d)
         (pairs_of df_a).
Let tech_pairs := fun k : Z * string =>
  map (fun t => (k, t)) (unique (map assigned_to (group k))).

Lemma grouped_asset_day_of_day :
  filter (fun row => keq (fst (fst row)) d) (grouped_asset_day_of df_a)
  = map (fun k => (k, agg k)) keys_of_day.
Proof.
  unfold grouped_asset_day_of, groupby; rewrite map_map; cbn [fst snd].
  now rewrite filter_map_comm.
Qed.

Lemma returned_bots_of_day :
  fillna 0 (lookup d (daily_returns_of df_a))
  = if mem d (map (fun row => fst (fst row)) (grouped_asset_day_of df_a))
    then Zsum (map (fun k => Z.b2z (is_return (agg k))) keys_of_day)
    else 0.
Proof.
  unfold daily_returns_of.
  rewrite (lookup_aggregate (fun row => fst (fst row))
             (fun g => Zsum (map (fun row => Z.b2z (is_return (snd row)))
                                 (snd g)))).
  destruct (mem d _); [|reflexivity].
  cbn [fillna snd]; rewrite grouped_asset_day_of_day, map_map.
  reflexivity.
Qed.

Lemma daily_completions_of_day :
  fillna 0 (lookup d (daily_completions_of df_a))
  = Z.of_nat (length pairs_of_day).
Proof.
  unfold daily_completions_of.
  rewrite (lookup_aggregate (fun t : Z * string * string => fst (fst t))
             (fun g => Z.of_nat (length (snd g)))).
  destruct (mem d _) eqn:E; [reflexivity|].
  cbn [fillna]; apply mem_false in E.
  destruct pairs_of_day as [|t ts] eqn:Ep; [reflexivity|].
  exfalso; apply E.
  assert (Ht : In t pairs_of_day) by (rewrite Ep; now left).
  apply filter_In in Ht; destruct Ht as [Ht Hd].
  apply keq_true in Hd; rewrite <- Hd.
  exact (in_map (fun t : Z * string * string => fst (fst t)) _ _ Ht).
Qed.

Lemma tech_pairs_incl : incl (flat_map tech_pairs keys_of_day) pairs_of_day.
Proof.
  intros [[d' a] t] Hin.
  apply in_flat_map in Hin; destruct Hin as [k [Hk Ht]].
  apply filter_In in Hk; destruct Hk as [_ Hd]; apply keq_true in Hd.
  apply in_map_iff in Ht; destruct Ht as [t' [E Ht]].
  injection E as E1 E2; subst t' k; simpl in Hd; subst d'.
  apply -> (@unique_In string _) in Ht.
  apply in_map_iff in Ht; destruct Ht as [r [Et Hr]].
  apply filter_In in Hr; destruct Hr as [Hr Hk]; apply keq_true in Hk.
  unfold key2 in Hk; injection Hk as Hd Ha.
  apply filter_In; split; [|apply keq_refl].
  unfold pairs_of; apply unique_In, in_map_iff.
  exists r; split; [congruence | assumption].
Qed.

Lemma tech_pairs_NoDup : NoDup (flat_map tech_pairs keys_of_day).
Proof.
  apply (NoDup_flat_map_keyed tech_pairs fst).
  - apply NoDup_filter, unique_NoDup.
  - intros k; apply NoDup_map_inj; [congruence | apply unique_NoDup].
  - intros k y Hy; apply in_map_iff in Hy; destruct Hy as [t [<- _]].
    reflexivity.
Qed.

(** Each flagged asset brings at least two (asset, technician) pairs of
    the day, and different assets bring different pairs: twice the
    returned assets never exceed the completions. *)
Lemma returned_bots_half :
  0 <= fillna 0 (lookup d (daily_returns_of df_a))
  /\ 2 * fillna 0 (lookup d (daily_returns_of df_a))
     <= fillna 0 (lookup d (daily_completions_of df_a)).
Proof.
  rewrite daily_completions_of_day, returned_bots_of_day.
  destruct (mem d _); [|lia].
  destruct (sum_flags_le_length (fun k => is_return (agg k)) tech_pairs
              keys_of_day) as [H0 H2].
  - intros k Hk; unfold is_return in Hk; apply andb_prop in Hk.
    destruct Hk as [_ Hk]; apply Z.geb_le in Hk.
    unfold tech_pairs; rewrite length_map.
    unfold agg, nunique in Hk; simpl in Hk; lia.
  - split; [exact H0|].
    pose proof (NoDup_incl_length tech_pairs_NoDup tech_pairs_incl); lia.
Qed.
End DailyCounts.

(** ** Bounds on the return rate *)

Lemma daily_return_pct_bounds (r : daily_row) :
  0 < daily_completions r ->
  0 <= returned_bots r ->
  2 * returned_bots r <= daily_completions r ->
  (0 <= daily_return_pct r <= 50)%Q.
Proof.
  unfold daily_return_pct; destruct r as [c b].
  cbn [daily_completions returned_bots]; intros Hc Hb Hh.
  destruct c as [|p|p]; try lia.
  unfold Qle, Qdiv, Qmult, Qinv, inject_Z; cbn [Qnum Qden].
  split; nia.
Qed.

Lemma Qsum_bounds (lo hi : Q) (l : list Q) :
  (forall x, In x l -> (lo <= x <= hi)%Q) ->
  (lo * inject_Z (Z.of_nat (length l)) <= Qsum l
   /\ Qsum l <= hi * inject_Z (Z.of_nat (length l)))%Q.
Proof.
  unfold Qsum; induction l as [|x r IH]; intros Hb.
  - simpl; rewrite !Qmult_0_r; split; apply Qle_refl.
  - cbn [length fold_right]; rewrite Nat2Z.inj_succ, <- Z.add_1_r.
    rewrite inject_Z_plus.
    destruct (Hb x (or_introl eq_refl)) as [Hlo Hhi].
    destruct IH as [IHlo IHhi]; [intros y Hy; apply Hb; now right|].
    change (inject_Z 1) with 1%Q; split.
    + setoid_replace (lo * (inject_Z (Z.of_nat (length r)) + 1))%Q
        with (lo + lo * inject_Z (Z.of_nat (length r)))%Q by ring.
      now apply Qplus_le_compat.
    + setoid_replace (hi * (inject_Z (Z.of_nat (length r)) + 1))%Q
        with (hi + hi * inject_Z (Z.of_nat (length r)))%Q by ring.
      now apply Qplus_le_compat.
Qed.

(** The mean of a non-empty group lies between any bounds of its
    values. *)
Lemma mean_bounds (lo hi : Q) (l : list Q) :
  l <> [] ->
  (forall x, In x l -> (lo <= x <= hi)%Q) ->
  (lo <= mean l <= hi)%Q.
Proof.
  intros Hl Hb; destruct (@Qsum_bounds lo hi l Hb) as [Hlo Hhi].
  assert (Hn : (0 < inject_Z (Z.of_nat (length l)))%Q).
  { change 0%Q with (inject_Z 0); rewrite <- Zlt_Qlt.
    destruct l; [congruence | simpl; lia]. }
  unfold mean; split.
  - now apply Qle_shift_div_l.
  - now apply Qle_shift_div_r.
Qed.

Lemma rint_bounds (q : Q) (n : Z) :
  (0 <= q <= inject_Z n)%Q -> 0 <= rint q <= n.
Proof.
  intros [H0 Hn]; unfold rint.
  assert (F0 : 0 <= Qfloor q).
  { change 0 with (Qfloor 0); now apply Qfloor_resp_le. }
  assert (Fn : Qfloor q <= n).
  { rewrite <- (Qfloor_Z n); now apply Qfloor_resp_le. }
  destruct (q - inject_Z (Qfloor q) ?= 1 # 2)%Q eqn:E; [| lia |].
  - assert (Hlt : Qfloor q < n); [|destruct (Z.even (Qfloor q)); lia].
    destruct (Z.eq_dec (Qfloor q) n) as [En|]; [|lia].
    apply Qeq_alt in E; rewrite En in E.
    assert (Hle : (q - inject_Z n <= 0)%Q).
    { setoid_replace 0%Q with (inject_Z n - inject_Z n)%Q by ring.
      apply Qplus_le_compat; [assumption | apply Qle_refl]. }
    rewrite E in Hle; exfalso; revert Hle; apply Qlt_not_le; reflexivity.
  - assert (Hlt : Qfloor q < n); [|lia].
    destruct (Z.eq_dec (Qfloor q) n) as [En|]; [|lia].
    apply Qgt_alt in E; rewrite En in E.
    assert (Hle : (q - inject_Z n <= 0)%Q).
    { setoid_replace 0%Q with (inject_Z n - inject_Z n)%Q by ring.
      apply Qplus_le_compat; [assumption | apply Qle_refl]. }
    exfalso; apply (Qlt_irrefl 0).
    apply Qlt_trans with (1 # 2)%Q; [reflexivity|].
    now apply Qlt_le_trans with (q - inject_Z n)%Q.
Qed.

(** Rounding to two decimals keeps a value inside [0, 50]. *)
Lemma round2_bounds (q : Q) : (0 <= q <= 50)%Q -> (0 <= round2 q <= 50)%Q.
Proof.
  intros [H0 H50]; unfold round2; rewrite Qred_correct.
  destruct (@rint_bounds (q * 100) 5000) as [R0 R1].
  { split.
    - setoid_replace 0%Q with (0 * 100)%Q by ring.
      apply Qmult_le_compat_r; [assumption | discriminate].
    - change (inject_Z 5000) with (50 * 100)%Q.
      apply Qmult_le_compat_r; [assumption | discriminate]. }
  split.
  - apply Qle_shift_div_l; [reflexivity|].
    rewrite Qmult_0_l; change 0%Q with (inject_Z 0); now rewrite <- Zle_Qle.
  - apply Qle_shift_div_r; [reflexivity|].
    change (50 * 100)%Q with (inject_Z 5000); now rewrite <- Zle_Qle.
Qed.

(** ** Weekly Return % *)

Lemma filter_filter_andb {A} (f g : A -> bool) (l : list A) :
  filter g (filter f l) = filter (fun x => f x && g x) l.
Proof.
  induction l as [|x r IH]; simpl; [reflexivity|].
  destruct (f x); simpl; [destruct (g x)|]; now rewrite IH.
Qed.

Lemma dropna_keys_group {V} (l : list (option Z * V)) (w : Z) :
  map snd (filter (fun kv => keq (fst kv) w) (dropna_keys l))
  = map snd (filter (fun kv => keq (fst kv) (Some w)) l).
Proof.
  unfold dropna_keys; induction l as [|[o v] r IH]; [reflexivity|].
  cbn [flat_map]; rewrite filter_app, map_app, IH.
  destruct o as [k|]; cbn [fst snd filter app keq EqKey_option];
    [|reflexivity].
  destruct (keq k w); reflexivity.
Qed.

(** The group of week [w] in the weekly mean is the list of that week's
    active days. *)
Lemma weekly_group (df : list record) (w : Z) :
  map snd
    (filter (fun kv => keq (fst kv) w) (dropna_keys (daily_active_weeks df)))
  = map (fun row => daily_return_pct (snd row)) (active_days_of_week df w).
Proof.
  rewrite dropna_keys_group; unfold daily_active_weeks, active_days_of_week.
  rewrite filter_map_comm, map_map; cbn [fst snd].
  unfold daily_active_of; now rewrite filter_filter_andb.
Qed.

Lemma lookup_weekly_return (df : list record) (w : Z) :
  lookup w (weekly_return_of df)
  = match active_days_of_week df w with
    | [] => None
    | days => Some (mean (map (fun row => daily_return_pct (snd row)) days))
    end.
Proof.
  unfold weekly_return_of.
  rewrite (lookup_aggregate fst (fun g => mean (map snd (snd g)))).
  cbn [snd]; rewrite weekly_group.
  destruct (mem w _) eqn:E.
  - apply mem_In, in_map_iff in E; destruct E as [kv [Hk Hin]].
    assert (Hg : In (snd kv)
                   (map snd (filter (fun kv => keq (fst kv) w)
                                    (dropna_keys (daily_active_weeks df))))).
    { apply in_map, filter_In; split; [assumption|].
      rewrite Hk; apply keq_refl. }
    rewrite weekly_group in Hg.
    destruct (active_days_of_week df w); [destruct Hg | reflexivity].
  - apply mem_false in E.
    destruct (active_days_of_week df w) as [|row rows] eqn:Ea; [reflexivity|].
    exfalso; apply E.
    assert (Hg : In (daily_return_pct (snd row))
                   (map (fun row => daily_return_pct (snd row))
                        (active_days_of_week df w)))
      by (rewrite Ea; now left).
    rewrite <- weekly_group in Hg.
    apply in_map_iff in Hg; destruct Hg as [kv [_ Hin]].
    apply filter_In in Hin; destruct Hin as [Hin Hk].
    apply keq_true in Hk; rewrite <- Hk; now apply in_map.
Qed.

Lemma active_day_pct_bounds (df : list record) (w : Z) (row : Z * daily_row) :
  In row (active_days_of_week df w) ->
  (0 <= daily_return_pct (snd row) <= 50)%Q.
Proof.
  unfold active_days_of_week; rewrite filter_In; intros [Hin Hf].
  apply andb_prop in Hf; destruct Hf as [Hc _]; apply Z.gtb_lt in Hc.
  unfold daily_of in Hin; apply in_map_iff in Hin.
  destruct Hin as [d [<- _]]; cbn [snd] in *.
  destruct (returned_bots_half (step_a df) d) as [H0 H2].
  now apply daily_return_pct_bounds.
Qed.

(** Every value of the weekly mean lies in [0, 50]. *)
Lemma weekly_return_bounds (df : list record) (w : Z) (q : Q) :
  lookup w (weekly_return_of df) = Some q -> (0 <= q <= 50)%Q.
Proof.
  rewrite lookup_weekly_return.
  destruct (active_days_of_week df w) as [|row rows] eqn:Ea; [discriminate|].
  intros E; injection E as <-.
  apply mean_bounds; [discriminate|].
  intros x Hx.
  change (In x (map (fun row => daily_return_pct (snd row)) (row :: rows)))
    in Hx.
  apply in_map_iff in Hx; destruct Hx as [r [<- Hr]].
  apply (active_day_pct_bounds df w); now rewrite Ea.
Qed.

Lemma assembled_row_return_bounds (df : list record) (w : Z) :
  exists q, Weekly_Return_pct (assembled_row df w) = Some q
            /\ (0 <= q <= 50)%Q.
Proof.
  eexists; split; [reflexivity|].
  apply round2_bounds.
  destruct (lookup w (weekly_return_of df)) as [q|] eqn:E; simpl.
  - now apply weekly_return_bounds in E.
  - split; discriminate.
Qed.

(** ** Work orders of a week *)

Lemma mem_pair_section {A B} `{EqKey A} `{EqKey B} (a : A) (b : B)
    (seen : list (A * B)) :
  mem (a, b) seen
  = mem b (map snd (filter (fun k => keq (fst k) a) seen)).
Proof.
  induction seen as [|[x y] r IH]; simpl; [reflexivity|].
  rewrite IH.
  destruct (keq_spec a x) as [->|Hne].
  - rewrite keq_refl; reflexivity.
  - destruct (keq_spec x a); [congruence | reflexivity].
Qed.

(** Among distinct (week, work order) pairs, those of week [a] are the
    distinct work orders of the rows of week [a], in the same order. *)
Lemma drop_dups_section {A B} `{EqKey A} `{EqKey B} (a : A)
    (l : list (A * B)) :
  forall seen,
    filter (fun k => keq (fst k) a) (drop_dups_from (fun k => k) seen l)
    = map (pair a)
        (drop_dups_from (fun b => b)
           (map snd (filter (fun k => keq (fst k) a) seen))
           (map snd (filter (fun k => keq (fst k) a) l))).
Proof.
  induction l as [|[x y] r IH]; intros seen; [reflexivity|].
  cbn [drop_dups_from filter fst].
  destruct (keq_spec x a) as [->|Hne].
  - cbn [map snd drop_dups_from]; rewrite <- mem_pair_section.
    destruct (mem (a, y) seen) eqn:E; [apply IH|].
    cbn [filter fst map]; rewrite keq_refl, IH.
    cbn [filter fst]; rewrite keq_refl; reflexivity.
  - destruct (mem (x, y) seen) eqn:E; [apply IH|].
    cbn [filter fst]; destruct (keq_spec x a); [congruence|].
    rewrite IH; cbn [filter fst]; destruct (keq_spec x a); [congruence|].
    reflexivity.
Qed.

Lemma week_keys (df : list record) (w : Z) :
  filter (fun k => keq (fst k) w)
         (unique (map (fun r => (iso_week r, work_order r)) df))
  = map (pair w) (work_orders_of_week df w).
Proof.
  unfold unique, drop_duplicates, work_orders_of_week.
  rewrite drop_dups_section; cbn [filter map].
  rewrite (filter_map_comm (fun k => keq (fst k) w)), map_map.
  reflexivity.
Qed.

(** The rows of [wo_ttr] for week [w] carry the week's times to repair. *)
Lemma wo_ttr_of_week (df : list record) (w : Z) :
  filter (fun row => keq (fst (fst row)) w) (wo_ttr_of df)
  = map (fun wo => ((w, wo), ttr_first_valid df w wo))
        (work_orders_of_week df w).
Proof.
  unfold wo_ttr_of, groupby; rewrite map_map; cbn [fst snd].
  rewrite (filter_map_comm (fun row => keq (fst (fst row)) w)).
  cbn [fst]; rewrite week_keys, map_map; reflexivity.
Qed.

Lemma lookup_group_flatten {A V} (key : A -> Z) (f : Z * list A -> option V)
    (l : list A) (w : Z) :
  f (w, []) = None ->
  flatten (lookup w (map (fun g => (fst g, f g)) (groupby key l)))
  = f (w, filter (fun x => keq (key x) w) l).
Proof.
  intros Hnil; rewrite (lookup_aggregate key f).
  destruct (mem w (map key l)) eqn:E; [reflexivity|].
  apply mem_false in E; cbn [flatten].
  replace (filter (fun x => keq (key x) w) l) with (@nil A);
    [now rewrite Hnil|].
  symmetry; induction l as [|x r IH]; [reflexivity|].
  simpl in *; destruct (Z.eqb_spec (key x) w); [tauto|].
  apply IH; tauto.
Qed.

(** MTTR before the volume mask: the median of the week's times to
    repair. *)
Lemma weekly_mttr_of_week (df : list record) (w : Z) :
  flatten (lookup w (weekly_mttr_of df)) = median (week_ttrs df w).
Proof.
  unfold weekly_mttr_of.
  rewrite (lookup_group_flatten (fun row => fst (fst row))
             (fun g => median (map snd (snd g)))) by reflexivity.
  cbn [snd]; rewrite wo_ttr_of_week, map_map; reflexivity.
Qed.

Lemma wo_volume_of_week (df : list record) (w : Z) :
  fillna 0 (lookup w (wo_volume_of df))
  = Z.of_nat (length (work_orders_of_week df w)).
Proof.
  rewrite lookup_wo_volume; unfold work_orders_of_week.
  destruct (mem w (map iso_week df)) eqn:E; [reflexivity|].
  apply mem_false in E; cbn [fillna].
  replace (filter (fun r => keq (iso_week r) w) df) with (@nil record);
    [reflexivity|].
  symmetry; induction df as [|x r IH]; [reflexivity|].
  simpl in *; destruct (Z.eqb_spec (iso_week x) w); [tauto|].
  apply IH; tauto.
Qed.

Lemma assembled_row_volume (df : list record) (w : Z) :
  WO_Volume (assembled_row df w)
  = Some (Z.of_nat (length (work_orders_of_week df w))).
Proof. unfold assembled_row; cbn [WO_Volume]; now rewrite wo_volume_of_week. Qed.

Lemma assembled_row_mttr (df : list record) (w : Z) :
  MTTR_hrs (assembled_row df w)
  = match work_orders_of_week df w with
    | [] => None
    | _ => median (week_ttrs df w)
    end.
Proof.
  unfold assembled_row; cbn [MTTR_hrs].
  rewrite wo_volume_of_week, weekly_mttr_of_week.
  destruct (work_orders_of_week df w); reflexivity.
Qed.

(** ** Closure percentages *)

Lemma mem_map_filter {K} `{EqKey K} {A} (key : A -> K) (l : list A) (k : K) :
  mem k (map key l)
  = match filter (fun x => keq (key x) k) l with
    | [] => false
    | _ => true
    end.
Proof.
  induction l as [|x r IH]; simpl; [reflexivity|].
  destruct (keq_spec k (key x)) as [->|Hne]; simpl.
  - now rewrite keq_refl.
  - destruct (keq_spec (key x) k); [congruence | exact IH].
Qed.

Lemma drop_dups_from_fresh {K} `{EqKey K} (l : list K) :
  forall seen,
    NoDup l -> (forall x, In x l -> ~ In x seen) ->
    drop_dups_from (fun k => k) seen l = l.
Proof.
  induction l as [|x r IH]; intros seen Hn Hs; [reflexivity|].
  inversion Hn as [|? ? Hx Hr]; subst; simpl.
  assert (E : mem x seen = false) by (apply mem_false, Hs; now left).
  rewrite E; f_equal; apply IH; [assumption|].
  intros y Hy [<-|Hin]; [tauto|].
  apply (Hs y); [now right | assumption].
Qed.

Lemma unique_of_NoDup {K} `{EqKey K} (l : list K) : NoDup l -> unique l = l.
Proof. intros Hn; apply drop_dups_from_fresh; [assumption | tauto]. Qed.

Lemma work_orders_of_week_NoDup (df : list record) (w : Z) :
  NoDup (work_orders_of_week df w).
Proof. apply unique_NoDup. Qed.

(** The entry of week [w] in a count of [wo_ttr] rows that pass a test:
    the number of the week's work orders that pass, and no entry when
    none does. *)
Lemma lookup_count_per_week (p : option Q -> bool) (df : list record) (w : Z) :
  lookup w (count_per_week (filter (fun row => p (snd row)) (wo_ttr_of df)))
  = if count_ttr p df w =? 0 then None else Some (count_ttr p df w).
Proof.
  unfold count_per_week.
  rewrite (lookup_aggregate (fun row : Z * string * option Q => fst (fst row))
             (fun g => nunique (map (fun row => snd (fst row)) (snd g)))).
  rewrite mem_map_filter; cbn [snd].
  rewrite filter_filter_andb.
  rewrite (filter_ext _ (fun row : Z * string * option Q =>
                           keq (fst (fst row)) w && p (snd row)))
    by (intros row; apply andb_comm).
  rewrite <- filter_filter_andb, wo_ttr_of_week, filter_map_comm.
  cbn [snd].
  assert (Hc : count_ttr p df w
               = Z.of_nat (length (filter (fun wo => p (ttr_first_valid df w wo))
                                          (work_orders_of_week df w)))).
  { unfold count_ttr, week_ttrs.
    now rewrite filter_map_comm, length_map. }
  rewrite Hc.
  destruct (filter (fun wo => p (ttr_first_valid df w wo))
                   (work_orders_of_week df w)) as [|wo wos] eqn:E;
    [reflexivity|].
  rewrite map_map; cbn [fst snd]; rewrite map_id.
  unfold nunique; rewrite unique_of_NoDup;
    [|rewrite <- E; apply NoDup_filter, work_orders_of_week_NoDup].
  destruct (Z.eqb_spec (Z.of_nat (length (wo :: wos))) 0) as [Hz|_];
    [simpl in Hz; lia | reflexivity].
Qed.

Lemma lookup_div_aligned (a b : list (Z * Z)) (w : Z) :
  flatten (lookup w (div_aligned a b))
  = match lookup w a, lookup w b with
    | Some x, Some y => Some (inject_Z x / inject_Z y * 100)%Q
    | _, _ => None
    end.
Proof.
  unfold div_aligned.
  rewrite (lookup_tabulate
             (fun w => match lookup w a, lookup w b with
                       | Some x, Some y =>
                           Some (inject_Z x / inject_Z y * 100)%Q
                       | _, _ => None
                       end)).
  destruct (mem w _) eqn:E; [reflexivity|].
  apply mem_false in E; cbn [flatten].
  assert (Ha : lookup w a = None).
  { apply lookup_None; intros Hin; apply E, unique_In, in_or_app; tauto. }
  now rewrite Ha.
Qed.

Lemma count_ttr_le (p : option Q -> bool) (df : list record) (w : Z) :
  0 <= count_ttr p df w <= Z.of_nat (length (work_orders_of_week df w)).
Proof.
  unfold count_ttr, week_ttrs; split; [lia|].
  pose proof (filter_length_le p (map (ttr_first_valid df w)
                                      (work_orders_of_week df w))) as Hl.
  rewrite length_map in Hl; lia.
Qed.

Lemma assembled_row_pct (df : list record) (w : Z) :
  pct_leq_24h (assembled_row df w) = closure_pct df w 24
  /\ pct_leq_48h (assembled_row df w) = closure_pct df w 48.
Proof.
  assert (Hp : forall hours,
             option_map round2
               (where_ (fillna 0 (lookup w (wo_volume_of df)) >? 0)
                       (flatten (lookup w (pct_leq df hours))))
             = closure_pct df w hours).
  { intros hours; unfold pct_leq, closure_pct.
    rewrite lookup_div_aligned, !lookup_count_per_week, wo_volume_of_week.
    pose proof (count_ttr_le notna df w) as Ht.
    destruct (count_ttr notna df w =? 0) eqn:Et;
      destruct (count_ttr (leq_hours hours) df w =? 0) eqn:El;
      cbn [orb]; try (destruct (_ >? 0); reflexivity).
    apply Z.eqb_neq in Et.
    destruct (Z.gtb_spec (Z.of_nat (length (work_orders_of_week df w))) 0);
      [reflexivity | lia]. }
  unfold assembled_row; cbn [pct_leq_24h pct_leq_48h]; split; apply Hp.
Qed.

(** ** Days and weeks *)

Lemma clip_range (lo hi x : Z) : lo <= hi -> lo <= clip lo hi x <= hi.
Proof. unfold clip; lia. Qed.

Lemma In_filter_map {A B} (f : A -> option B) (l : list A) (y : B) :
  In y (filter_map f l) <-> exists x, In x l /\ f x = Some y.
Proof.
  induction l as [|x r IH]; simpl.
  - split; [tauto | intros [x [[] _]]].
  - destruct (f x) as [y'|] eqn:E; simpl; rewrite IH; split.
    + intros [<-|[x' [Hin Hf]]]; [exists x; tauto | exists x'; tauto].
    + intros [x' [[<-|Hin] Hf]]; [left; congruence | right; exists x'; tauto].
    + intros [x' [Hin Hf]]; exists x'; tauto.
    + intros [x' [[<-|Hin] Hf]]; [congruence | exists x'; tauto].
Qed.

(** The days that appear in [daily] are days of de-duplicated records. *)
Lemma daily_of_day (df_a : list record) (row : Z * daily_row) :
  In row (daily_of df_a) -> In (fst row) (map day df_a).
Proof.
  unfold daily_of; rewrite in_map_iff; intros [d [<- Hd]]; cbn [fst].
  apply -> (@unique_In Z _) in Hd.
  apply in_app_or in Hd; destruct Hd as [Hd|Hd].
  - unfold daily_completions_of in Hd; rewrite index_of_aggregate in Hd.
    apply -> (@unique_In Z _) in Hd.
    apply in_map_iff in Hd; destruct Hd as [t [<- Ht]].
    unfold pairs_of in Ht.
    apply -> (@unique_In (Z * string * string) _) in Ht.
    apply in_map_iff in Ht; destruct Ht as [r [<- Hr]].
    cbn [fst]; exact (in_map day _ _ Hr).
  - unfold daily_returns_of in Hd; rewrite index_of_aggregate in Hd.
    apply -> (@unique_In Z _) in Hd.
    apply in_map_iff in Hd; destruct Hd as [g [<- Hg]].
    apply (in_map fst) in Hg.
    unfold grouped_asset_day_of in Hg; rewrite index_of_aggregate in Hg.
    apply -> (@unique_In (Z * string) _) in Hg.
    apply in_map_iff in Hg; destruct Hg as [r [<- Hr]].
    cbn [fst]; exact (in_map day _ _ Hr).
Qed.

Lemma step_a_incl (df : list record) (r : record) :
  In r (step_a df) -> In r df.
Proof. apply drop_duplicates_In. Qed.

(** [day_to_week] holds every day of the frame it is built from. *)
Lemma day_to_week_total (df : list record) (d : Z) :
  In d (map day df) -> lookup d (day_to_week_of df) <> None.
Proof.
  intros Hd Hn; apply lookup_None in Hn; apply Hn.
  unfold day_to_week_of; rewrite map_map; cbn [fst].
  now apply drop_duplicates_keys.
Qed.

(** ** Missing columns *)

Section MissingColumns.
Variable cell : Type.
Variable NA : cell.

Lemma index_of_app_in (c : string) (cols extra : list string) :
  In c cols -> index_of c (cols ++ extra) = index_of c cols.
Proof.
  induction cols as [|c' r IH]; simpl; [tauto|].
  destruct (String.eqb_spec c' c); [reflexivity|].
  intros [E|Hin]; [congruence | now rewrite IH].
Qed.

Lemma index_of_app_out (c : string) (cols : list string) :
  ~ In c cols -> index_of c (cols ++ [c]) = length cols.
Proof.
  induction cols as [|c' r IH]; simpl; intros Hn.
  - now rewrite String.eqb_refl.
  - destruct (String.eqb_spec c' c); [tauto|].
    rewrite IH; tauto.
Qed.

Lemma index_of_lt (c : string) (cols : list string) :
  In c cols -> (index_of c cols < length cols)%nat.
Proof.
  induction cols as [|c' r IH]; simpl; [tauto|].
  destruct (String.eqb_spec c' c); [lia|].
  intros [E|Hin]; [congruence | apply IH in Hin; lia].
Qed.

Lemma padded_length (w : nat) (r : list cell) :
  length (firstn w (r ++ repeat NA w)) = w.
Proof.
  rewrite length_firstn, length_app, repeat_length; lia.
Qed.

Lemma nth_padded (w i : nat) (r : list cell) :
  (i < w)%nat -> nth i (firstn w (r ++ repeat NA w)) NA = nth i r NA.
Proof.
  intros Hi; rewrite nth_firstn.
  destruct (Nat.ltb_spec i w); [|lia].
  destruct (Nat.lt_ge_cases i (length r)) as [Hr|Hr].
  - now rewrite app_nth1.
  - rewrite app_nth2, nth_repeat by assumption.
    now rewrite nth_overflow.
Qed.

Lemma ensure_column_columns (df : frame cell) (c' c : string) :
  In c (columns (ensure_column NA df c'))
  <-> In c (columns df) \/ c = c'.
Proof.
  unfold ensure_column; destruct (mem c' (columns df)) eqn:E.
  - apply mem_In in E; split; [tauto|].
    intros [H | ->]; assumption.
  - cbn [columns]; rewrite in_app_iff; simpl; intuition.
Qed.

(** Creating a missing column fills it with NA. *)
Lemma ensure_column_new (df : frame cell) (c : string) :
  ~ In c (columns df) -> reads_NA NA (ensure_column NA df c) c.
Proof.
  intros Hn; unfold ensure_column.
  destruct (mem c (columns df)) eqn:E; [apply mem_In in E; tauto|].
  intros row Hrow; cbn [rows columns] in *.
  apply in_map_iff in Hrow; destruct Hrow as [r [<- _]].
  unfold getitem; rewrite index_of_app_out by assumption.
  rewrite app_nth2; rewrite padded_length; [|lia].
  now rewrite Nat.sub_diag.
Qed.

(** Creating another column leaves the cells of an existing one. *)
Lemma ensure_column_keeps (df : frame cell) (c' c : string) :
  In c (columns df) -> reads_NA NA df c ->
  reads_NA NA (ensure_column NA df c') c.
Proof.
  intros Hc Hna; unfold ensure_column.
  destruct (mem c' (columns df)); [exact Hna|].
  intros row Hrow; cbn [rows columns] in *.
  apply in_map_iff in Hrow; destruct Hrow as [r [<- Hr]].
  unfold getitem; rewrite index_of_app_in by assumption.
  pose proof (index_of_lt c (columns df) Hc) as Hlt.
  rewrite app_nth1 by (rewrite padded_length; assumption).
  rewrite nth_padded by assumption.
  exact (Hna r Hr).
Qed.

Lemma ensure_columns_keep (l : list string) (c : string) :
  forall df, In c (columns df) -> reads_NA NA df c ->
             In c (columns (fold_left (ensure_column NA) l df))
             /\ reads_NA NA (fold_left (ensure_column NA) l df) c.
Proof.
  induction l as [|c' r IH]; intros df Hc Hna; [tauto|].
  cbn [fold_left]; apply IH.
  - apply ensure_column_columns; tauto.
  - now apply ensure_column_keeps.
Qed.

Lemma ensure_columns_new (l : list string) (c : string) :
  forall df, In c l -> ~ In c (columns df) ->
             reads_NA NA (fold_left (ensure_column NA) l df) c.
Proof.
  induction l as [|c' r IH]; intros df Hl Hn; [destruct Hl|].
  cbn [fold_left].
  destruct (String.eqb_spec c' c) as [->|Hne].
  - apply ensure_columns_keep.
    + apply ensure_column_columns; tauto.
    + now apply ensure_column_new.
  - apply IH.
    + destruct Hl; [congruence | assumption].
    + rewrite ensure_column_columns; intros [H|H]; [tauto | congruence].
Qed.

(** A required column that the renamed table lacks reads NA on every
    row of the prepared table. *)
Lemma prepare_missing_column (df : frame cell) (c : string) :
  In c required_columns ->
  ~ In c (columns (rename (col_map_of (columns df)) df)) ->
  reads_NA NA (prepare NA df) c.
Proof. intros Hc Hn; unfold prepare; now apply ensure_columns_new. Qed.
End MissingColumns.

Lemma day_to_week_records (week : Z -> Z) (records : list record)
    (r : record) :
  (forall r, In r records -> iso_week r = clip 1 52 (week (day r))) ->
  In r records ->
  lookup (day r) (day_to_week_of records) = Some (iso_week r).
Proof.
  intros Hweek Hr.
  destruct (lookup (day r) (day_to_week_of records)) as [w|] eqn:E.
  - destruct (day_to_week_In _ _ E) as [r' [Hr' [Hd Hw]]].
    rewrite <- Hw, (Hweek r Hr), (Hweek r' Hr'), Hd; reflexivity.
  - exfalso; revert E; apply day_to_week_total.
    exact (in_map day _ _ Hr).
Qed.

Lemma active_day_record (records : list record) (row : Z * daily_row) :
  In row (daily_active_of (step_a records)) ->
  exists r, In r records /\ day r = fst row.
Proof.
  unfold daily_active_of; intros Hrow.
  apply filter_In in Hrow; destruct Hrow as [Hrow _].
  apply daily_of_day, in_map_iff in Hrow.
  destruct Hrow as [r [Hd Hr]]; apply step_a_incl in Hr.
  exists r; tauto.
Qed.

Section NormalizedRecords.
Variable cell : Type.
Variable NA : cell.
Variable to_datetime : cell -> option timestamp.
Variable astype_str : cell -> string.
Variable isocalendar_week : Z -> Z.

Local Abbreviation normalize :=
  (normalize_df NA to_datetime astype_str isocalendar_week).
Local Abbreviation parse := (parse_row NA to_datetime astype_str).

Lemma dated_week (p : parsed) (r : record) :
  dated isocalendar_week p = Some r ->
  p_date_completed p = Some (date_completed r)
  /\ date_reported r = p_date_reported p
  /\ day r = date_completed r / ns_per_day
  /\ iso_week r = clip 1 52 (isocalendar_week (day r)).
Proof.
  unfold dated; destruct (p_date_completed p); [|discriminate].
  intros E; injection E as <-; cbn; tauto.
Qed.

Lemma dated_dropped (p : parsed) :
  p_date_completed p = None -> dated isocalendar_week p = None.
Proof. intros E; unfold dated; now rewrite E. Qed.

Lemma dated_kept (p : parsed) (t : timestamp) :
  p_date_completed p = Some t ->
  exists r, dated isocalendar_week p = Some r
            /\ date_completed r = t
            /\ date_reported r = p_date_reported p.
Proof.
  intros E; unfold dated; rewrite E; eexists; split; [reflexivity|].
  split; reflexivity.
Qed.

Lemma parse_row_completed (cols : list string) (row : list cell) :
  p_date_completed (parse cols row)
  = to_datetime (getitem NA cols "date_completed" row).
Proof. reflexivity. Qed.

Lemma parse_row_reported (cols : list string) (row : list cell) :
  p_date_reported (parse cols row)
  = to_datetime (getitem NA cols "date_reported" row).
Proof. reflexivity. Qed.

Lemma normalize_df_In (df : frame cell) (r : record) :
  In r (normalize df)
  <-> exists row,
        In row (rows (prepare NA df))
        /\ keep_row (parse (columns (prepare NA df)) row) = true
        /\ dated isocalendar_week (parse (columns (prepare NA df)) row)
           = Some r.
Proof.
  unfold normalize_df; rewrite In_filter_map; split.
  - intros [p [Hp Hd]]; apply filter_In in Hp; destruct Hp as [Hp Hk].
    apply in_map_iff in Hp; destruct Hp as [row [<- Hrow]].
    exists row; tauto.
  - intros [row [Hrow [Hk Hd]]]; eexists; split; [|exact Hd].
    apply filter_In; split; [|exact Hk].
    exact (in_map _ _ _ Hrow).
Qed.

(** The week of a normalised record is the ISO week of its day, capped
    into 1..52. *)
Lemma normalize_df_week (df : frame cell) (r : record) :
  In r (normalize df) ->
  iso_week r = clip 1 52 (isocalendar_week (day r)).
Proof.
  intros Hr.
  destruct (proj1 (normalize_df_In df r) Hr) as [row [_ [_ Hd]]].
  destruct (dated_week _ Hd) as [_ [_ [_ Hw]]]; exact Hw.
Qed.

Lemma normalize_df_week_range (df : frame cell) (r : record) :
  In r (normalize df) -> 1 <= iso_week r <= 52.
Proof.
  intros Hr; rewrite (normalize_df_week df r Hr); apply clip_range; lia.
Qed.

(** Every record kept comes from a row whose completion date parsed. *)
Lemma normalize_df_source (df : frame cell) (r : record) :
  In r (normalize df) ->
  exists row,
    In row (rows (prepare NA df))
    /\ to_datetime
         (getitem NA (columns (prepare NA df)) "date_completed" row)
       = Some (date_completed r).
Proof.
  intros Hr.
  destruct (proj1 (normalize_df_In df r) Hr) as [row [Hrow [_ Hd]]].
  exists row; split; [exact Hrow|].
  destruct (dated_week _ Hd) as [Hc _].
  rewrite <- parse_row_completed; exact Hc.
Qed.

(** A kept row whose reported date does not parse stays, without a
    reported date and so without a time to repair. *)
Lemma normalize_df_unreported (df : frame cell) (row : list cell)
    (t : timestamp) :
  In row (rows (prepare NA df)) ->
  keep_row (parse (columns (prepare NA df)) row) = true ->
  to_datetime (getitem NA (columns (prepare NA df)) "date_completed" row)
  = Some t ->
  to_datetime (getitem NA (columns (prepare NA df)) "date_reported" row)
  = None ->
  exists r, In r (normalize df)
            /\ date_completed r = t
            /\ date_reported r = None
            /\ ttr_hours r = None.
Proof.
  intros Hrow Hk Hc Hrep.
  rewrite <- parse_row_completed in Hc.
  rewrite <- parse_row_reported in Hrep.
  destruct (dated_kept _ Hc) as [r [Hd [Ht Hr]]].
  exists r; split.
  - apply (proj2 (normalize_df_In df r)); exists row.
    split; [exact Hrow|]; split; [exact Hk | exact Hd].
  - split; [exact Ht|].
    assert (Hn : date_reported r = None) by (rewrite Hr; exact Hrep).
    split; [exact Hn|]; unfold ttr_hours; now rewrite Hn.
Qed.

(** Without a completion-date column every row is dropped. *)
Lemma normalize_df_no_completion_column (df : frame cell) :
  to_datetime NA = None ->
  ~ In "date_completed"%string
       (columns (rename (col_map_of (columns df)) df)) ->
  normalize df = [].
Proof.
  intros HNA Hn.
  assert (Hc : In "date_completed"%string required_columns).
  { unfold required_columns; do 5 right; left; reflexivity. }
  pose proof (prepare_missing_column NA df Hc Hn) as Hna.
  destruct (normalize df) as [|r rs] eqn:E; [reflexivity|].
  assert (Hr : In r (normalize df)) by (rewrite E; left; reflexivity).
  destruct (normalize_df_source df r Hr) as [row [Hrow Hd]].
  rewrite (Hna row Hrow), HNA in Hd; discriminate Hd.
Qed.
End NormalizedRecords.

(** ** Weeks without a usable time to repair *)

Lemma dropna_notna {A} (l : list (option A)) :
  filter notna l = [] -> dropna l = [].
Proof.
  unfold dropna; induction l as [|[x|] r IH]; simpl;
    [reflexivity | discriminate | exact IH].
Qed.

Lemma median_all_missing (l : list (option Q)) :
  filter notna l = [] -> median l = None.
Proof. intros E; unfold median; now rewrite (dropna_notna l E). Qed.

Lemma first_valid_all_missing {A} (l : list (option A)) :
  (forall x, In x l -> x = None) -> first_valid l = None.
Proof.
  induction l as [|[x|] r IH]; simpl; intros Hl; [reflexivity | |].
  - specialize (Hl (Some x) (or_introl eq_refl)); discriminate.
  - apply IH; intros y Hy; apply Hl; now right.
Qed.

Lemma filter_all_false {A} (p : A -> bool) (l : list A) :
  (forall x, In x l -> p x = false) -> filter p l = [].
Proof.
  induction l as [|x r IH]; simpl; intros Hl; [reflexivity|].
  rewrite (Hl x (or_introl eq_refl)); apply IH.
  intros y Hy; apply Hl; now right.
Qed.

(** When no row of the week has a reported date, no work order of the
    week has a time to repair. *)
Lemma count_notna_unreported (df : list record) (w : Z) :
  (forall r, In r df -> iso_week r = w -> date_reported r = None) ->
  count_ttr notna df w = 0.
Proof.
  intros Hna; unfold count_ttr, week_ttrs.
  rewrite filter_all_false; [reflexivity|].
  intros o Ho; apply in_map_iff in Ho; destruct Ho as [wo [<- _]].
  unfold ttr_first_valid; rewrite first_valid_all_missing; [reflexivity|].
  intros x Hx; apply in_map_iff in Hx; destruct Hx as [r [<- Hr]].
  unfold work_order_rows in Hr; apply filter_In in Hr.
  destruct Hr as [Hr Hk]; apply keq_true in Hk; injection Hk as Hw _.
  unfold ttr_hours; now rewrite (Hna r Hr Hw).
Qed.

Lemma count_ttr_zero_filter (p : option Q -> bool) (df : list record)
    (w : Z) :
  count_ttr p df w = 0 -> filter p (week_ttrs df w) = [].
Proof.
  unfold count_ttr; destruct (filter p (week_ttrs df w)); [reflexivity|].
  simpl; lia.
Qed.

Lemma closure_pct_no_denominator (df : list record) (w : Z) (hours : Q) :
  count_ttr notna df w = 0 -> closure_pct df w hours = None.
Proof. intros E; unfold closure_pct; now rewrite E. Qed.

(** A closure percentage that is present divides by a positive count. *)
Lemma closure_pct_present (df : list record) (w : Z) (hours p : Q) :
  closure_pct df w hours = Some p ->
  0 < count_ttr notna df w
  /\ p = round2 (inject_Z (count_ttr (leq_hours hours) df w)
                 / inject_Z (count_ttr notna df w) * 100).
Proof.
  unfold closure_pct.
  pose proof (count_ttr_le notna df w) as Ht.
  destruct (count_ttr notna df w =? 0) eqn:Et; [discriminate|].
  destruct (count_ttr (leq_hours hours) df w =? 0); [discriminate|].
  cbn [orb]; intros E; injection E as <-.
  apply Z.eqb_neq in Et; split; [lia | reflexivity].
Qed.

Lemma active_days_week (df : list record) (w : Z) :
  active_days_of_week df w <> [] -> In w (map iso_week df).
Proof.
  intros Hne.
  destruct (lookup w (weekly_return_of df)) as [q|] eqn:E.
  - now apply weekly_return_week in E.
  - rewrite lookup_weekly_return in E.
    destruct (active_days_of_week df w); [congruence | discriminate].
Qed.

Lemma active_day_completions (df : list record) (w : Z)
    (row : Z * daily_row) :
  In row (active_days_of_week df w) -> 0 < daily_completions (snd row).
Proof.
  unfold active_days_of_week; rewrite filter_In; intros [_ Hf].
  apply andb_prop in Hf; destruct Hf as [Hc _]; now apply Z.gtb_lt.
Qed.


(** * The claims of the specification *)

Unset Implicit Arguments.

Section Claims.
Variable cell : Type.
Variable NA : cell.
Variable to_datetime : cell -> option timestamp.
Variable astype_str : cell -> string.
Variable isocalendar_week : Z -> Z.

Local Abbreviation normalize :=
  (normalize_df NA to_datetime astype_str isocalendar_week).
Local Abbreviation compute :=
  (compute_metrics NA to_datetime astype_str isocalendar_week).

Lemma compute_metrics_unfold (df : frame cell) :
  compute df = weekly_metrics (normalize df).
Proof. reflexivity. Qed.

(** C2.  Whatever the input table, the aggregator returns 52 rows whose
    [Week] column reads 1, 2, ..., 52 in this order, each week once. *)
Theorem compute_metrics_dense (df : frame cell) :
  map fst (compute df) = map Z.of_nat (seq 1 52)
  /\ length (compute df) = 52%nat
  /\ NoDup (map fst (compute df)).
Proof.
  rewrite compute_metrics_unfold; generalize (normalize df) as records.
  intros records; rewrite <- (length_map fst), weekly_metrics_index.
  split; [reflexivity|]; split; [reflexivity | exact weeks_NoDup].
Qed.

(** C3.  Among the de-duplicated records, the group of an asset on a
    day is flagged as a return exactly when it has more than one
    occurrence and at least two distinct technicians.  If all the
    records of that asset and day name one technician the group is not
    a return; if two of them name different technicians it is. *)
Theorem return_detection (df : frame cell) (d : Z) (a : string) :
  asset_day_records d a (step_a (normalize df)) <> [] ->
  exists g,
    lookup (d, a) (grouped_asset_day_of (step_a (normalize df))) = Some g
    /\ occurrences g
       = Z.of_nat (length (asset_day_records d a (step_a (normalize df))))
    /\ techs g
       = nunique (map assigned_to
                      (asset_day_records d a (step_a (normalize df))))
    /\ (is_return g = true <-> 1 < occurrences g /\ 2 <= techs g)
    /\ ((forall r1 r2,
            In r1 (normalize df) -> In r2 (normalize df) ->
            day r1 = d -> asset_number r1 = a ->
            day r2 = d -> asset_number r2 = a ->
            assigned_to r1 = assigned_to r2) ->
        is_return g = false)
    /\ ((exists r1 r2,
            In r1 (normalize df) /\ In r2 (normalize df)
            /\ day r1 = d /\ asset_number r1 = a
            /\ day r2 = d /\ asset_number r2 = a
            /\ assigned_to r1 <> assigned_to r2) ->
        is_return g = true).
Proof.
  generalize (normalize df) as records; intros records Hg.
  destruct (@is_return_group records d a Hg) as [g [El [Ho [Ht Hiff]]]].
  exists g.
  split; [exact El|]; split; [exact Ho|]; split; [exact Ht|].
  split; [exact Hiff|]; split.
  - intros Hsame.
    exact (@single_tech_not_return records d a g El Hsame).
  - intros [r1 [r2 [H1 [H2 [D1 [A1 [D2 [A2 Hne]]]]]]]].
    destruct (@two_techs_return records d a r1 r2
                H1 H2 D1 A1 D2 A2 Hne) as [g' [El' Hr]].
    congruence.
Qed.

(** C4.  For a week with at least one active day, the Weekly Return %
    series holds the arithmetic mean of [daily_return_pct] over that
    week's active days, every one of which has
    [daily_completions > 0]; the output row of the week shows this
    mean rounded to two decimals. *)
Theorem weekly_return_mean (df : frame cell) (w : Z) :
  active_days_of_week (normalize df) w <> [] ->
  let days := active_days_of_week (normalize df) w in
  let pcts := map (fun row => daily_return_pct (snd row)) days in
  lookup w (weekly_return_of (normalize df)) = Some (mean pcts)
  /\ mean pcts
     = (Qsum pcts / inject_Z (Z.of_nat (length days)))%Q
  /\ (forall row, In row days ->
        0 < daily_completions (snd row)
        /\ daily_return_pct (snd row)
           = (inject_Z (returned_bots (snd row))
              / inject_Z (daily_completions (snd row)) * 100)%Q)
  /\ exists row,
       loc w (compute df) = Some row
       /\ Weekly_Return_pct row = Some (round2 (mean pcts)).
Proof.
  rewrite compute_metrics_unfold.
  pose proof (normalize_df_week_range NA to_datetime astype_str
                isocalendar_week df) as Hrange.
  revert Hrange; generalize (normalize df) as records.
  intros records Hrange Hne.
  set (days := active_days_of_week records w).
  set (pcts := map (fun row => daily_return_pct (snd row)) days).
  assert (El : lookup w (weekly_return_of records) = Some (mean pcts)).
  { rewrite lookup_weekly_return; subst pcts days.
    destruct (active_days_of_week records w); [congruence | reflexivity]. }
  split; [exact El|]; split.
  { unfold mean, pcts; now rewrite length_map. }
  split.
  { intros row Hrow; split; [|reflexivity].
    exact (active_day_completions records w row Hrow). }
  assert (Hw : 1 <= w <= 52).
  { apply active_days_week, in_map_iff in Hne.
    destruct Hne as [r [<- Hr]]; exact (Hrange r Hr). }
  exists (assembled_row records w); split.
  - exact (loc_weekly_metrics records Hw).
  - unfold assembled_row; cbn [Weekly_Return_pct]; now rewrite El.
Qed.

(** C5.  [day_to_week] is built from the whole normalised frame, before
    STEP A: every normalised record, kept by the de-duplication or not,
    finds its day mapped to its own week, a week of 1..52; in
    particular every active day has a week; and it is this mapping that
    labels the active days. *)
Theorem day_to_week_from_normalized (df : frame cell) (r : record) :
  In r (normalize df) ->
  lookup (day r) (day_to_week_of (normalize df)) = Some (iso_week r)
  /\ 1 <= iso_week r <= 52
  /\ (forall row,
        In row (daily_active_of (step_a (normalize df))) ->
        exists r', In r' (normalize df) /\ day r' = fst row
                   /\ lookup (fst row) (day_to_week_of (normalize df))
                      = Some (iso_week r'))
  /\ daily_active_weeks (normalize df)
     = map (fun row =>
              (lookup (fst row) (day_to_week_of (normalize df)),
               daily_return_pct (snd row)))
           (daily_active_of (step_a (normalize df))).
Proof.
  pose proof (normalize_df_week NA to_datetime astype_str
                isocalendar_week df) as Hweek.
  pose proof (normalize_df_week_range NA to_datetime astype_str
                isocalendar_week df) as Hrange.
  revert Hweek Hrange; generalize (normalize df) as records.
  intros records Hweek Hrange Hr.
  split; [exact (day_to_week_records isocalendar_week records r Hweek Hr)|].
  split; [exact (Hrange r Hr)|].
  split; [|reflexivity].
  intros row Hrow.
  destruct (active_day_record records row Hrow) as [r' [Hr' Hd]].
  exists r'; split; [exact Hr'|]; split; [exact Hd|].
  rewrite <- Hd.
  exact (day_to_week_records isocalendar_week records r' Hweek Hr').
Qed.

(** C6, as the code has it.  Per week, each distinct work order gets
    one time to repair: (date_completed - date_reported) in hours,
    taken from the first of its rows in that week whose value is not
    missing.  The week's MTTR is the median of these over its distinct
    work orders, and is missing when the week has no work order. *)
Theorem mttr_median_first_valid (df : frame cell) (w : Z) :
  1 <= w <= 52 ->
  exists row,
    loc w (compute df) = Some row
    /\ WO_Volume row
       = Some (Z.of_nat (length (work_orders_of_week (normalize df) w)))
    /\ MTTR_hrs row
       = match work_orders_of_week (normalize df) w with
         | [] => None
         | wos =>
             median
               (map (fun wo =>
                       first_valid
                         (map ttr_hours
                              (work_order_rows (normalize df) w wo)))
                    wos)
         end
    /\ (forall r reported,
          date_reported r = Some reported ->
          exists t, ttr_hours r = Some t
                    /\ (t * 3600
                        == inject_Z (date_completed r - reported)
                           / 1000000000)%Q).
Proof.
  rewrite compute_metrics_unfold; generalize (normalize df) as records.
  intros records Hw; exists (assembled_row records w).
  split; [exact (loc_weekly_metrics records Hw)|].
  split; [apply assembled_row_volume|].
  split.
  - rewrite assembled_row_mttr; unfold week_ttrs, ttr_first_valid.
    destruct (work_orders_of_week records w); reflexivity.
  - intros r reported E; unfold ttr_hours; rewrite E.
    eexists; split; [reflexivity|]; field.
Qed.

(** C7.  A row of the output with WO Volume 0 has no MTTR and no
    closure percentage, and its Weekly Return % is 0.0. *)
Theorem zero_volume_week (df : frame cell) (w : Z) (row : weekly_row) :
  In (w, row) (compute df) ->
  WO_Volume row = Some 0 ->
  MTTR_hrs row = None
  /\ pct_leq_24h row = None
  /\ pct_leq_48h row = None
  /\ Weekly_Return_pct row = Some 0%Q.
Proof.
  rewrite compute_metrics_unfold; generalize (normalize df) as records.
  intros records Hin Hv.
  destruct (proj1 (In_weekly_metrics records w row) Hin) as [_ E].
  subst row; exact (@assembled_row_zero_volume records w Hv).
Qed.


(** C10.  Every Weekly Return % of the output lies in [0, 50]; on every
    day twice the returned assets do not exceed the completions. *)
Theorem weekly_return_range (df : frame cell) (w : Z) (row : weekly_row) :
  In (w, row) (compute df) ->
  (exists q, Weekly_Return_pct row = Some q /\ (0 <= q <= 50)%Q)
  /\ (forall d r,
        In (d, r) (daily_of (step_a (normalize df))) ->
        0 <= returned_bots r /\ 2 * returned_bots r <= daily_completions r).
Proof.
  rewrite compute_metrics_unfold; generalize (normalize df) as records.
  intros records Hin.
  destruct (proj1 (In_weekly_metrics records w row) Hin) as [_ E].
  subst row; split; [apply assembled_row_return_bounds|].
  intros d r Hr; unfold daily_of in Hr.
  apply in_map_iff in Hr; destruct Hr as [d' [E _]].
  injection E as -> <-; cbn [returned_bots daily_completions].
  apply returned_bots_half.
Qed.

Variable exn : Type.
Variable buffer : Type.
Variable read_excel : buffer -> exn + frame cell.

Local Abbreviation process :=
  (process_file NA to_datetime astype_str isocalendar_week read_excel).

End Claims.

(** * Worked examples *)


(** On day 70 asset 00123 has two de-duplicated records by two
    technicians: a return. *)
Lemma return_detection_witness :
  asset_day_records 70 "00123" (step_a (Sheet.normalize Sheet.returns)) <> []
  /\ exists g,
       lookup (70, "00123"%string)
              (grouped_asset_day_of (step_a (Sheet.normalize Sheet.returns)))
       = Some g
       /\ occurrences g = 2 /\ techs g = 2 /\ is_return g = true.
Proof.
  assert (H : asset_day_records 70 "00123"
                (step_a (Sheet.normalize Sheet.returns)) <> [])
    by (vm_compute; discriminate).
  split; [exact H|].
  destruct (return_detection Sheet.cell Sheet.Blank Sheet.to_datetime
              Sheet.astype_str Sheet.week_of_day Sheet.returns 70 "00123" H)
    as [g [El [Ho [Ht [Hiff _]]]]].
  exists g; split; [exact El|].
  assert (Ho2 : occurrences g = 2) by (rewrite Ho; vm_compute; reflexivity).
  assert (Ht2 : techs g = 2) by (rewrite Ht; vm_compute; reflexivity).
  split; [exact Ho2|]; split; [exact Ht2|].
  apply (proj2 Hiff); rewrite Ho2, Ht2; split; [reflexivity | discriminate].
Defined.

(** Week 11 has one active day, with a daily return rate of 50%. *)
Lemma weekly_return_mean_witness :
  active_days_of_week (Sheet.normalize Sheet.returns) 11 <> []
  /\ exists row,
       loc 11 (Sheet.compute Sheet.returns) = Some row
       /\ Weekly_Return_pct row = Some 50%Q.
Proof.
  assert (H : active_days_of_week (Sheet.normalize Sheet.returns) 11 <> [])
    by (vm_compute; discriminate).
  split; [exact H|].
  destruct (weekly_return_mean Sheet.cell Sheet.Blank Sheet.to_datetime
              Sheet.astype_str Sheet.week_of_day Sheet.returns 11 H)
    as [_ [_ [_ [row [El Er]]]]].
  exists row; split; [exact El|].
  rewrite Er; vm_compute; reflexivity.
Defined.

(** The record of work order W2, completed on day 70, finds day 70 mapped
    to week 11. *)
Lemma day_to_week_from_normalized_witness :
  exists r,
    In r (Sheet.normalize Sheet.returns)
    /\ work_order r = "W2"%string
    /\ lookup (day r) (day_to_week_of (Sheet.normalize Sheet.returns))
       = Some 11.
Proof.
  pose (r := nth 1 (Sheet.normalize Sheet.returns)
                   (nth 0 (Sheet.normalize Sheet.returns)
                        {| work_order := ""; equipment := ""; type_ := "";
                           assigned_to := ""; date_reported := None;
                           date_completed := 0; asset_number := "";
                           iso_week := 0; day := 0 |})).
  assert (H : In r (Sheet.normalize Sheet.returns))
    by (vm_compute; right; left; reflexivity).
  exists r; split; [exact H|]; split; [reflexivity|].
  destruct (day_to_week_from_normalized Sheet.cell Sheet.Blank
              Sheet.to_datetime Sheet.astype_str Sheet.week_of_day
              Sheet.returns r H) as [El _].
  exact El.
Defined.

(** C6 as stated fails.  Work order W1 has two rows in week 11; the
    first-seen row has no reported date, the second was reported five
    hours before completion.  Read from the first-seen row the week has
    no time to repair and no MTTR; the aggregator reports 5 hours. *)
Lemma mttr_first_seen_row_counterexample :
  exists row t,
    loc 11 (Sheet.compute Sheet.late_report) = Some row
    /\ MTTR_hrs row = Some t
    /\ (t == 5)%Q
    /\ mttr_first_row (Sheet.normalize Sheet.late_report) 11 = None.
Proof.
  eexists; eexists.
  split; [vm_compute; reflexivity|].
  split; [reflexivity|].
  split; reflexivity.
Qed.

(** The same table under the amended reading: 5 hours. *)
Lemma mttr_median_first_valid_witness :
  1 <= 11 <= 52
  /\ exists row t,
       loc 11 (Sheet.compute Sheet.late_report) = Some row
       /\ WO_Volume row = Some 1
       /\ MTTR_hrs row = Some t /\ (t == 5)%Q.
Proof.
  assert (H : 1 <= 11 <= 52) by lia.
  split; [exact H|].
  destruct (mttr_median_first_valid Sheet.cell Sheet.Blank Sheet.to_datetime
              Sheet.astype_str Sheet.week_of_day Sheet.late_report 11 H)
    as [row [El [Ev [Em _]]]].
  exists row, (18000000000000 # 3600000000000)%Q.
  split; [exact El|]; split; [rewrite Ev; vm_compute; reflexivity|].
  split; [rewrite Em; vm_compute; reflexivity | reflexivity].
Defined.

(** Week 1 of the sample has no record: volume 0, return rate 0.0, and
    nothing else. *)
Lemma zero_volume_week_witness :
  In (1, Sheet.volume_row 0) (Sheet.compute Sheet.returns)
  /\ WO_Volume (Sheet.volume_row 0) = Some 0
  /\ MTTR_hrs (Sheet.volume_row 0) = None
  /\ Weekly_Return_pct (Sheet.volume_row 0) = Some 0%Q.
Proof.
  assert (H1 : In (1, Sheet.volume_row 0) (Sheet.compute Sheet.returns))
    by (vm_compute; left; reflexivity).
  assert (H2 : WO_Volume (Sheet.volume_row 0) = Some 0) by reflexivity.
  split; [exact H1|]; split; [exact H2|].
  destruct (zero_volume_week Sheet.cell Sheet.Blank Sheet.to_datetime
              Sheet.astype_str Sheet.week_of_day Sheet.returns 1
              (Sheet.volume_row 0) H1 H2) as [Hm [_ [_ Hr]]].
  split; [exact Hm | exact Hr].
Defined.



(** Week 11 of the sample shows 50%, the largest value possible. *)
Lemma weekly_return_range_witness :
  exists row,
    In (11, row) (Sheet.compute Sheet.returns)
    /\ Weekly_Return_pct row = Some 50%Q
    /\ exists q, Weekly_Return_pct row = Some q /\ (0 <= q <= 50)%Q.
Proof.
  pose (row := match loc 11 (Sheet.compute Sheet.returns) with
               | Some r => r
               | None => blank
               end).
  assert (H : In (11, row) (Sheet.compute Sheet.returns))
    by (vm_compute; do 10 right; left; reflexivity).
  exists row; split; [exact H|]; split; [vm_compute; reflexivity|].
  exact (proj1 (weekly_return_range Sheet.cell Sheet.Blank Sheet.to_datetime
                  Sheet.astype_str Sheet.week_of_day Sheet.returns 11 row H)).
Defined.

(** * Further properties of the code *)

(** ** Column inference *)

Lemma find_map_Some {A B} (f : A -> option B) (l : list A) (y : B) :
  find_map f l = Some y -> exists x, In x l /\ f x = Some y.
Proof.
  induction l as [|x r IH]; simpl; [discriminate|].
  destruct (f x) as [y'|] eqn:E.
  - intros E'; injection E' as <-; exists x; tauto.
  - intros E'; destruct (IH E') as [x' [Hin Hf]]; exists x'; tauto.
Qed.

Lemma find_map_None {A B} (f : A -> option B) (l : list A) :
  find_map f l = None <-> forall x, In x l -> f x = None.
Proof.
  induction l as [|x r IH]; simpl; [tauto|].
  destruct (f x) as [y|] eqn:E; split.
  - discriminate.
  - intros Hall; specialize (Hall x (or_introl eq_refl)); congruence.
  - intros Hn x' [<-|Hin]; [exact E | exact (proj1 IH Hn x' Hin)].
  - intros Hall; apply IH; intros x' Hin; apply Hall; now right.
Qed.

Lemma dict_set_In {V} (k : string) (v : V) (d : list (string * V))
    (k' : string) (v' : V) :
  In (k', v') (dict_set k v d) -> (k' = k /\ v' = v) \/ In (k', v') d.
Proof.
  induction d as [|[k0 v0] r IH]; simpl.
  - intros [E|[]]; injection E as <- <-; tauto.
  - destruct (String.eqb_spec k0 k) as [->|Hne]; simpl.
    + intros [E|Hin]; [injection E as <- <-; tauto | tauto].
    + intros [E|Hin]; [tauto | destruct (IH Hin); tauto].
Qed.

Lemma dict_set_key {V} (k : string) (v : V) (d : list (string * V)) :
  In k (map fst (dict_set k v d)).
Proof.
  induction d as [|[k0 v0] r IH]; simpl; [tauto|].
  destruct (String.eqb_spec k0 k) as [->|Hne]; simpl; tauto.
Qed.

Lemma dict_set_keeps_keys {V} (k : string) (v : V) (d : list (string * V))
    (k' : string) :
  In k' (map fst d) -> In k' (map fst (dict_set k v d)).
Proof.
  induction d as [|[k0 v0] r IH]; simpl; [tauto|].
  destruct (String.eqb_spec k0 k) as [->|Hne]; simpl; tauto.
Qed.

Lemma lc_fold_values (cols : list string) :
  forall d k v,
    In (k, v) (fold_left (fun d c => dict_set (lower c) c d) cols d) ->
    In (k, v) d \/ (In v cols /\ k = lower v).
Proof.
  induction cols as [|c r IH]; intros d k v; simpl; [tauto|].
  intros Hin; destruct (IH _ _ _ Hin) as [Hd|[Hv Hk]]; [|tauto].
  destruct (dict_set_In _ _ _ _ _ Hd) as [[-> ->]|Hd']; tauto.
Qed.

Lemma lc_fold_keys (cols : list string) :
  forall d k,
    In k (map fst d) \/ In k (map lower cols) ->
    In k (map fst (fold_left (fun d c => dict_set (lower c) c d) cols d)).
Proof.
  induction cols as [|c r IH]; intros d k; simpl; [tauto|].
  intros [Hd|[<-|Hr]]; apply IH.
  - left; now apply dict_set_keeps_keys.
  - left; apply dict_set_key.
  - now right.
Qed.

(** Every entry of [lc] is a column under its lower-cased name, and every
    column has its lower-cased name in [lc]. *)
Lemma lc_of_entries (cols : list string) (k v : string) :
  In (k, v) (lc_of cols) -> In v cols /\ k = lower v.
Proof.
  intros Hin; destruct (lc_fold_values cols [] k v Hin) as [[]|H]; exact H.
Qed.

Lemma lc_of_keys (cols : list string) (c : string) :
  In c cols -> In (lower c) (map fst (lc_of cols)).
Proof.
  intros Hc; apply lc_fold_keys; right; now apply in_map.
Qed.

Lemma best_col_unfold (cols patterns : list string) :
  _best_col cols patterns
  = find_map
      (fun p =>
         find_map
           (fun kv => if contains p (fst kv) then Some (snd kv) else None)
           (lc_of cols))
      patterns.
Proof. reflexivity. Qed.

(** X1.  The column [_best_col] returns is a column of the table whose
    lower-cased name contains one of the patterns. *)
Theorem best_col_sound (cols patterns : list string) (c : string) :
  _best_col cols patterns = Some c ->
  In c cols
  /\ exists p, In p patterns /\ contains p (lower c) = true.
Proof.
  rewrite best_col_unfold; intros E.
  destruct (find_map_Some _ _ _ E) as [p [Hp E2]].
  destruct (find_map_Some _ _ _ E2) as [[k v] [Hkv Hc]].
  cbn [fst snd] in Hc.
  destruct (contains p k) eqn:Ec; [|discriminate].
  injection Hc as ->.
  destruct (lc_of_entries cols k c Hkv) as [Hin ->].
  split; [exact Hin|]; exists p; tauto.
Qed.

(** X2.  [_best_col] finds nothing exactly when no column name contains
    any pattern, whatever the case of its letters. *)
Theorem best_col_none (cols patterns : list string) :
  _best_col cols patterns = None
  <-> forall c p, In c cols -> In p patterns ->
                  contains p (lower c) = false.
Proof.
  rewrite best_col_unfold, find_map_None; split.
  - intros Hn c p Hc Hp.
    specialize (Hn p Hp); rewrite find_map_None in Hn.
    apply lc_of_keys, in_map_iff in Hc.
    destruct Hc as [[k v] [Hk Hkv]]; cbn [fst] in Hk; subst k.
    specialize (Hn _ Hkv); cbn [fst snd] in Hn.
    destruct (contains p (lower c)); [discriminate | reflexivity].
  - intros Hall p Hp; apply find_map_None; intros [k v] Hkv.
    destruct (lc_of_entries cols k v Hkv) as [Hv ->]; cbn [fst snd].
    now rewrite (Hall v p Hv Hp).
Qed.

(** X3.  Patterns are tried in order before columns are: when some
    column matches the first pattern, the column returned matches the
    first pattern, wherever a match of a later pattern stands in the
    header. *)
Theorem best_col_first_pattern (cols : list string) (p : string)
    (later : list string) (c0 : string) :
  In c0 cols ->
  contains p (lower c0) = true ->
  exists c, _best_col cols (p :: later) = Some c
            /\ In c cols /\ contains p (lower c) = true.
Proof.
  intros Hc0 Hm; rewrite best_col_unfold; cbn [find_map].
  destruct (find_map
              (fun kv => if contains p (fst kv) then Some (snd kv) else None)
              (lc_of cols)) as [c|] eqn:E.
  - exists c; split; [reflexivity|].
    destruct (find_map_Some _ _ _ E) as [[k v] [Hkv Hc]].
    cbn [fst snd] in Hc.
    destruct (contains p k) eqn:Ec; [|discriminate].
    injection Hc as ->.
    destruct (lc_of_entries cols k c Hkv) as [Hin ->]; tauto.
  - exfalso; rewrite find_map_None in E.
    apply lc_of_keys, in_map_iff in Hc0.
    destruct Hc0 as [[k v] [Hk Hkv]]; cbn [fst] in Hk; subst k.
    specialize (E _ Hkv); cbn [fst snd] in E.
    rewrite Hm in E; discriminate.
Qed.

(** ** Preparing the required columns *)

Lemma Forall2_same {A} (R : A -> A -> Prop) (l : list A) :
  (forall x, R x x) -> Forall2 R l l.
Proof. intros HR; induction l; constructor; auto. Qed.

Lemma Forall2_map_r {A B} (R : A -> B -> Prop) (g : A -> B) (l : list A) :
  (forall x, R x (g x)) -> Forall2 R l (map g l).
Proof. intros HR; induction l; simpl; constructor; auto. Qed.

Lemma Forall2_compose {A B C} (P : A -> B -> Prop) (Q : B -> C -> Prop)
    (S : A -> C -> Prop) (l1 : list A) (l2 : list B) (l3 : list C) :
  (forall a b c, P a b -> Q b c -> S a c) ->
  Forall2 P l1 l2 -> Forall2 Q l2 l3 -> Forall2 S l1 l3.
Proof.
  intros HS H12; revert l3; induction H12 as [|a b r1 r2 Hab _ IH];
    intros l3 H23; inversion H23; subst; constructor; eauto.
Qed.

Section PrepareFacts.
Variable cell : Type.
Variable NA : cell.

(** The row [row'] reads, under the header [cols'], what [row] reads
    under [cols], for every label of [cols]. *)
Let same_cells (cols cols' : list string) (row row' : list cell) : Prop :=
  forall c, In c cols -> getitem NA cols' c row' = getitem NA cols c row.

Lemma ensure_column_cells (df : frame cell) (c' : string) :
  Forall2 (same_cells (columns df) (columns (ensure_column NA df c')))
          (rows df) (rows (ensure_column NA df c')).
Proof.
  unfold ensure_column; destruct (mem c' (columns df)).
  - apply Forall2_same; intros row c _; reflexivity.
  - cbn [rows columns]; apply Forall2_map_r; intros row c Hc.
    unfold getitem; rewrite (index_of_app_in c (columns df) [c'] Hc).
    pose proof (index_of_lt c (columns df) Hc) as Hlt.
    rewrite app_nth1 by (rewrite padded_length; exact Hlt).
    apply nth_padded; exact Hlt.
Qed.

Lemma ensure_columns_cells (l : list string) :
  forall df,
    Forall2 (same_cells (columns df)
                        (columns (fold_left (ensure_column NA) l df)))
            (rows df) (rows (fold_left (ensure_column NA) l df)).
Proof.
  induction l as [|c' r IH]; intros df; cbn [fold_left].
  - apply Forall2_same; intros row c _; reflexivity.
  - eapply Forall2_compose;
      [|apply (ensure_column_cells df c')
       |apply (IH (ensure_column NA df c'))].
    intros a b c Hab Hbc x Hx.
    rewrite (Hbc x), (Hab x); [reflexivity | exact Hx|].
    apply ensure_column_columns; tauto.
Qed.

Lemma ensure_columns_present (l : list string) (c : string) :
  forall df, In c l \/ In c (columns df) ->
             In c (columns (fold_left (ensure_column NA) l df)).
Proof.
  induction l as [|c' r IH]; intros df; cbn [fold_left].
  - intros [[]|H]; exact H.
  - intros [[->|Hr]|Hd]; apply IH.
    + right; apply ensure_column_columns; tauto.
    + tauto.
    + right; apply ensure_column_columns; tauto.
Qed.

(** X4.  Whatever header the table comes with, the prepared table has
    all six required columns and as many rows as the table read. *)
Theorem prepare_required_columns (df : frame cell) :
  (forall c, In c required_columns -> In c (columns (prepare NA df)))
  /\ length (rows (prepare NA df)) = length (rows df).
Proof.
  split.
  - intros c Hc; unfold prepare; apply ensure_columns_present; tauto.
  - symmetry.
    exact (Forall2_length
             (ensure_columns_cells required_columns
                (rename (col_map_of (columns df)) df))).
Qed.

(** X5.  Creating the missing columns does not disturb the others: row
    by row, every column the renamed table had reads the same cell in
    the prepared table, also on rows shorter or longer than the
    header. *)
Theorem prepare_keeps_cells (df : frame cell) :
  Forall2
    (fun row row' =>
       forall c,
         In c (columns (rename (col_map_of (columns df)) df)) ->
         getitem NA (columns (prepare NA df)) c row'
         = getitem NA (columns (rename (col_map_of (columns df)) df)) c row)
    (rows df) (rows (prepare NA df)).
Proof.
  exact (ensure_columns_cells required_columns
           (rename (col_map_of (columns df)) df)).
Qed.
End PrepareFacts.

(** ** Asset numbers *)

Lemma take_while_forallb {A} (f : A -> bool) (l : list A) :
  forallb f (take_while f l) = true.
Proof.
  induction l as [|x r IH]; simpl; [reflexivity|].
  destruct (f x) eqn:E; simpl; [now rewrite E|reflexivity].
Qed.

Lemma take_while_app {A} (f : A -> bool) (l r : list A) :
  forallb f l = true -> take_while f (l ++ r) = l ++ take_while f r.
Proof.
  induction l as [|x l IH]; simpl; [reflexivity|].
  intros H; apply andb_prop in H; destruct H as [Hx Hl].
  now rewrite Hx, IH.
Qed.

Lemma forallb_firstn {A} (f : A -> bool) (n : nat) (l : list A) :
  forallb f l = true -> forallb f (firstn n l) = true.
Proof.
  revert n; induction l as [|x r IH]; intros [|n]; simpl; try reflexivity.
  intros H; apply andb_prop in H; destruct H as [Hx Hr].
  now rewrite Hx, IH.
Qed.

Lemma forallb_rev {A} (f : A -> bool) (l : list A) :
  forallb f (rev l) = forallb f l.
Proof.
  induction l as [|x r IH]; simpl; [reflexivity|].
  rewrite forallb_app, IH; simpl; rewrite andb_true_r; apply andb_comm.
Qed.

Lemma search_suffix_digits (l m : list ascii) :
  search_suffix_5_6 l = Some m ->
  forallb is_digit m = true /\ (5 <= length m <= 6)%nat.
Proof.
  unfold search_suffix_5_6.
  set (core := match rev l with
               | [] => []
               | c :: r => if Ascii.eqb c newline then r else c :: r
               end).
  pose proof (take_while_forallb is_digit core) as Hd.
  destruct (Nat.leb_spec 6 (length (take_while is_digit core))) as [H6|H6].
  - intros E.
    assert (Hm : rev (firstn 6 (take_while is_digit core)) = m)
      by congruence.
    subst m; split.
    + rewrite forallb_rev; now apply forallb_firstn.
    + rewrite length_rev, length_firstn; lia.
  - destruct (Nat.eqb_spec (length (take_while is_digit core)) 5) as [H5|H5];
      [|discriminate].
    intros E.
    assert (Hm : rev (take_while is_digit core) = m) by congruence.
    subst m; split.
    + now rewrite forallb_rev.
    + rewrite length_rev; lia.
Qed.

Lemma search_run_digits (l m : list ascii) :
  search_run_4_6 l = Some m ->
  forallb is_digit m = true /\ (4 <= length m <= 6)%nat.
Proof.
  induction l as [|c r IH]; [discriminate|].
  cbn [search_run_4_6].
  pose proof (take_while_forallb is_digit (c :: r)) as Hd.
  destruct (Nat.leb_spec 4 (length (take_while is_digit (c :: r))))
    as [H4|H4]; [|exact IH].
  intros E.
  assert (Hm : firstn 6 (take_while is_digit (c :: r)) = m) by congruence.
  subst m; split.
  - now apply forallb_firstn.
  - rewrite length_firstn; lia.
Qed.

(** X6.  An asset number is either the equipment string itself or a run
    of four to six decimal digits. *)
Theorem extract_asset_shape (s : string) :
  extract_asset s = s
  \/ (forallb is_digit (list_ascii_of_string (extract_asset s)) = true
      /\ (4 <= length (list_ascii_of_string (extract_asset s)) <= 6)%nat).
Proof.
  unfold extract_asset.
  destruct (search_suffix_5_6 (list_ascii_of_string s)) as [m|] eqn:E5.
  - right; rewrite list_ascii_of_string_of_list_ascii.
    destruct (search_suffix_digits _ _ E5) as [Hd Hl]; split; [exact Hd|lia].
  - destruct (search_run_4_6 (list_ascii_of_string s)) as [m|] eqn:E4.
    + right; rewrite list_ascii_of_string_of_list_ascii.
      exact (search_run_digits _ _ E4).
    + now left.
Qed.

Lemma digit_not_newline (c : ascii) :
  is_digit c = true -> Ascii.eqb c newline = false.
Proof.
  intros Hd; destruct (Ascii.eqb_spec c newline) as [->|]; [|reflexivity].
  discriminate Hd.
Qed.

Lemma firstn_exact {A} (l r : list A) :
  firstn (length l) (l ++ r) = l.
Proof. induction l as [|x l IH]; simpl; [now destruct r | now rewrite IH]. Qed.

Lemma search_suffix_six (pre ds : list ascii) :
  forallb is_digit ds = true ->
  length ds = 6%nat ->
  search_suffix_5_6 (pre ++ ds) = Some ds.
Proof.
  intros Hd Hl; unfold search_suffix_5_6; rewrite rev_app_distr.
  assert (Hrd : forallb is_digit (rev ds) = true)
    by (rewrite forallb_rev; exact Hd).
  assert (Hlr : length (rev ds) = 6%nat) by (rewrite length_rev; exact Hl).
  destruct (rev ds) as [|c r] eqn:Er; [discriminate Hlr|].
  assert (Hc : is_digit c = true)
    by (simpl in Hrd; apply andb_prop in Hrd; tauto).
  cbn [app]; rewrite (digit_not_newline c Hc).
  change (c :: r ++ rev pre) with ((c :: r) ++ rev pre).
  rewrite (take_while_app is_digit (c :: r) (rev pre) Hrd).
  destruct (Nat.leb_spec 6 (length ((c :: r) ++ take_while is_digit (rev pre))))
    as [_|Hlt]; [|rewrite length_app in Hlt; lia].
  rewrite <- Hlr, firstn_exact, <- Er, rev_involutive; reflexivity.
Qed.

(** X7.  An equipment string that ends in six digits has these six
    digits as its asset number, whatever stands before them. *)
Theorem extract_asset_trailing_six (s : string) (pre ds : list ascii) :
  list_ascii_of_string s = pre ++ ds ->
  forallb is_digit ds = true ->
  length ds = 6%nat ->
  extract_asset s = string_of_list_ascii ds.
Proof.
  intros Hs Hd Hl; unfold extract_asset.
  now rewrite Hs, (search_suffix_six pre ds Hd Hl).
Qed.

(** ** Records kept by the normaliser *)

Lemma lower_char_idempotent (c : ascii) :
  (if is_upper (if is_upper c then ascii_of_nat (nat_of_ascii c + 32) else c)
   then ascii_of_nat
          (nat_of_ascii
             (if is_upper c then ascii_of_nat (nat_of_ascii c + 32) else c)
           + 32)
   else if is_upper c then ascii_of_nat (nat_of_ascii c + 32) else c)
  = (if is_upper c then ascii_of_nat (nat_of_ascii c + 32) else c).
Proof.
  destruct c as [[] [] [] [] [] [] [] []]; reflexivity.
Qed.

Lemma lower_idempotent (s : string) : lower (lower s) = lower s.
Proof.
  induction s as [|c r IH]; [reflexivity|].
  cbn [lower]; now rewrite lower_char_idempotent, IH.
Qed.

Lemma filter_map_length {A B} (f : A -> option B) (l : list A) :
  (length (filter_map f l) <= length l)%nat.
Proof.
  induction l as [|x r IH]; simpl; [lia|].
  destruct (f x); simpl; lia.
Qed.

Section KeptRecords.
Variable cell : Type.
Variable NA : cell.
Variable to_datetime : cell -> option timestamp.
Variable astype_str : cell -> string.
Variable isocalendar_week : Z -> Z.

Local Abbreviation normalize :=
  (normalize_df NA to_datetime astype_str isocalendar_week).

Lemma dated_fields (p : parsed) (r : record) :
  dated isocalendar_week p = Some r ->
  equipment r = p_equipment p
  /\ type_ r = p_type p
  /\ asset_number r = p_asset_number p
  /\ day r = date_completed r / ns_per_day.
Proof.
  unfold dated; destruct (p_date_completed p); [|discriminate].
  intros E; injection E as <-; cbn; tauto.
Qed.

Lemma parse_row_fields (cols : list string) (row : list cell) :
  let p := parse_row NA to_datetime astype_str cols row in
  lower (p_type p) = p_type p
  /\ p_asset_number p = extract_asset (p_equipment p).
Proof.
  cbn [parse_row p_type p_asset_number p_equipment].
  split; [apply lower_idempotent | reflexivity].
Qed.

(** X8.  Every record the normaliser keeps passed the inclusion test
    (equipment naming an iBot, in any case, or a type holding one of the
    maintenance keywords); its type is lower-cased, its asset number is
    extracted from its equipment string, and its day is the calendar day
    that holds its completion instant. *)
Theorem normalize_df_kept (df : frame cell) (r : record) :
  In r (normalize df) ->
  (contains "ibot" (lower (equipment r))
   || existsb (fun k => contains k (type_ r)) INCLUDE_TYPES) = true
  /\ lower (type_ r) = type_ r
  /\ asset_number r = extract_asset (equipment r)
  /\ day r * ns_per_day <= date_completed r < (day r + 1) * ns_per_day.
Proof.
  intros Hr.
  destruct (proj1 (@normalize_df_In cell NA to_datetime astype_str
                     isocalendar_week df r) Hr) as [row [_ [Hk Hd]]].
  destruct (dated_fields _ _ Hd) as [He [Ht [Ha Hday]]].
  destruct (parse_row_fields (columns (prepare NA df)) row) as [Hl Hx].
  unfold keep_row in Hk; rewrite <- He, <- Ht in Hk.
  split; [exact Hk|].
  split; [rewrite Ht; exact Hl|].
  split; [rewrite Ha, He; exact Hx|].
  rewrite Hday; unfold ns_per_day.
  pose proof (Z.div_mod (date_completed r) (86400 * 1000000000)) as Hdm.
  pose proof (Z.mod_pos_bound (date_completed r) (86400 * 1000000000)) as Hb.
  lia.
Qed.

(** X9.  The normaliser only drops rows: it never returns more records
    than the table has rows. *)
Theorem normalize_df_length (df : frame cell) :
  (length (normalize df) <= length (rows df))%nat.
Proof.
  unfold normalize_df.
  pose proof (filter_map_length (dated isocalendar_week)
                (filter keep_row
                   (map (parse_row NA to_datetime astype_str
                           (columns (prepare NA df)))
                        (rows (prepare NA df))))) as H1.
  pose proof (filter_length_le keep_row
                (map (parse_row NA to_datetime astype_str
                        (columns (prepare NA df)))
                     (rows (prepare NA df)))) as H2.
  rewrite length_map in H2.
  pose proof (Forall2_length
                (ensure_columns_cells cell NA required_columns
                   (rename (col_map_of (columns df)) df))) as H3.
  cbn [rename rows] in H3; unfold prepare in *; cbn zeta; lia.
Qed.
End KeptRecords.

(** ** Days of the daily table *)

Lemma filter_all_true {A} (p : A -> bool) (l : list A) :
  (forall x, In x l -> p x = true) -> filter p l = l.
Proof.
  induction l as [|x r IH]; simpl; intros Hl; [reflexivity|].
  rewrite (Hl x (or_introl eq_refl)); f_equal; apply IH.
  intros y Hy; apply Hl; now right.
Qed.

Lemma day_has_completion (df_a : list record) (r : record) :
  In r df_a ->
  0 < fillna 0 (lookup (day r) (daily_completions_of df_a)).
Proof.
  intros Hr; rewrite daily_completions_of_day.
  assert (Hin : In (day r, asset_number r, assigned_to r)
                   (filter (fun t : Z * string * string =>
                              keq (fst (fst t)) (day r))
                           (pairs_of df_a))).
  { apply filter_In; split; [|apply keq_refl].
    unfold pairs_of; apply unique_In.
    exact (in_map (fun r => (day r, asset_number r, assigned_to r)) _ _ Hr). }
  destruct (filter _ (pairs_of df_a)); [destruct Hin | simpl; lia].
Qed.

(** X10.  Every day that reaches [daily] has at least one completion, so
    the selection of the days with [daily_completions > 0] keeps them
    all. *)
Theorem daily_active_all (df_a : list record) :
  daily_active_of df_a = daily_of df_a
  /\ forall d row, In (d, row) (daily_of df_a) -> 0 < daily_completions row.
Proof.
  assert (Hpos : forall d row, In (d, row) (daily_of df_a) ->
                               0 < daily_completions row).
  { intros d row Hin.
    pose proof (daily_of_day df_a (d, row) Hin) as Hd; cbn [fst] in Hd.
    apply in_map_iff in Hd; destruct Hd as [r [Hday Hr]].
    unfold daily_of in Hin; apply in_map_iff in Hin.
    destruct Hin as [d' [E _]]; injection E as -> <-.
    cbn [daily_completions]; rewrite <- Hday.
    exact (day_has_completion df_a r Hr). }
  split; [|exact Hpos].
  unfold daily_active_of; apply filter_all_true.
  intros [d row] Hin; cbn [snd]; apply Z.gtb_lt; exact (Hpos d row Hin).
Qed.

(** ** Rounding *)

Lemma rint_floor (q : Q) : Qfloor q <= rint q <= Qfloor q + 1.
Proof.
  unfold rint.
  destruct (q - inject_Z (Qfloor q) ?= 1 # 2)%Q;
    [destruct (Z.even (Qfloor q))| |]; lia.
Qed.

Lemma rint_same_floor (x y : Q) :
  Qfloor x = Qfloor y -> (x <= y)%Q -> rint x <= rint y.
Proof.
  intros Hf Hxy; unfold rint; rewrite Hf.
  destruct (Qcompare_spec (x - inject_Z (Qfloor y)) (1 # 2)) as [Ex|Ex|Ex];
    destruct (Qcompare_spec (y - inject_Z (Qfloor y)) (1 # 2)) as [Ey|Ey|Ey];
    try (destruct (Z.even (Qfloor y))); try lia; exfalso; lra.
Qed.

(** Rounding half to even is monotone. *)
Lemma rint_le (x y : Q) : (x <= y)%Q -> rint x <= rint y.
Proof.
  intros Hxy; pose proof (Qfloor_resp_le x y Hxy) as Hf.
  destruct (Z.eq_dec (Qfloor x) (Qfloor y)) as [E|Hne].
  - now apply rint_same_floor.
  - pose proof (rint_floor x); pose proof (rint_floor y); lia.
Qed.

Lemma round2_le (x y : Q) : (x <= y)%Q -> (round2 x <= round2 y)%Q.
Proof.
  intros Hxy; unfold round2; rewrite !Qred_correct.
  apply Qmult_le_compat_r; [|discriminate].
  rewrite <- Zle_Qle; apply rint_le.
  apply Qmult_le_compat_r; [exact Hxy | discriminate].
Qed.

Lemma rint_comp (x y : Q) : (x == y)%Q -> rint x = rint y.
Proof.
  intros E; apply Z.le_antisymm; apply rint_le; rewrite E; apply Qle_refl.
Qed.

Lemma round2_comp (x y : Q) : (x == y)%Q -> round2 x = round2 y.
Proof.
  intros E; unfold round2; apply Qred_complete.
  rewrite (rint_comp (x * 100) (y * 100)); [reflexivity|].
  now rewrite E.
Qed.

(** Rounding to two decimals keeps a percentage inside [0, 100]. *)
Lemma round2_percent (q : Q) :
  (0 <= q <= 100)%Q -> (0 <= round2 q <= 100)%Q.
Proof.
  intros [H0 H1]; split.
  - change 0%Q with (round2 0); now apply round2_le.
  - change 100%Q with (round2 100); now apply round2_le.
Qed.

Lemma ratio_percent (a b : Z) :
  0 <= a <= b -> 0 < b ->
  (0 <= inject_Z a / inject_Z b * 100 <= 100)%Q.
Proof.
  intros Ha Hb; destruct b as [|p|p]; try lia.
  unfold Qle, Qdiv, Qmult, Qinv, inject_Z; cbn [Qnum Qden]; split; nia.
Qed.

Lemma ratio_le (a a' b : Z) :
  a <= a' -> 0 < b ->
  (inject_Z a / inject_Z b * 100 <= inject_Z a' / inject_Z b * 100)%Q.
Proof.
  intros Ha Hb; destruct b as [|p|p]; try lia.
  unfold Qle, Qdiv, Qmult, Qinv, inject_Z; cbn [Qnum Qden]; nia.
Qed.

(** ** Volume, MTTR and closure percentages of a week *)

Lemma filter_length_mono {A} (p q : A -> bool) (l : list A) :
  (forall x, p x = true -> q x = true) ->
  (length (filter p l) <= length (filter q l))%nat.
Proof.
  intros Hpq; induction l as [|x r IH]; simpl; [lia|].
  destruct (p x) eqn:Ep.
  - rewrite (Hpq x Ep); simpl; lia.
  - destruct (q x); simpl; lia.
Qed.

Lemma leq_hours_mono (h h' : Q) (o : option Q) :
  (h <= h')%Q -> leq_hours h o = true -> leq_hours h' o = true.
Proof.
  intros Hh; destruct o as [t|]; simpl; [|discriminate].
  rewrite !Qle_bool_iff; intros Ht; now apply Qle_trans with h.
Qed.

Lemma leq_hours_notna (h : Q) (o : option Q) :
  leq_hours h o = true -> notna o = true.
Proof. destruct o; [reflexivity | discriminate]. Qed.

Lemma count_ttr_mono (p q : option Q -> bool) (df : list record) (w : Z) :
  (forall o, p o = true -> q o = true) ->
  count_ttr p df w <= count_ttr q df w.
Proof.
  intros Hpq; unfold count_ttr.
  pose proof (filter_length_mono p q (week_ttrs df w) Hpq); lia.
Qed.

Lemma closure_pct_absent (df : list record) (w : Z) (hours : Q) :
  closure_pct df w hours = None
  <-> count_ttr (leq_hours hours) df w = 0.
Proof.
  unfold closure_pct.
  pose proof (count_ttr_mono (leq_hours hours) notna df w
                (leq_hours_notna hours)) as Hle.
  pose proof (count_ttr_le (leq_hours hours) df w) as [H0 _].
  destruct (Z.eqb_spec (count_ttr notna df w) 0) as [Et|Et];
    destruct (Z.eqb_spec (count_ttr (leq_hours hours) df w) 0) as [El|El];
    cbn [orb]; split; intros H; try reflexivity; try discriminate; try lia.
Qed.

Lemma closure_pct_range (df : list record) (w : Z) (hours p : Q) :
  closure_pct df w hours = Some p -> (0 <= p <= 100)%Q.
Proof.
  intros E; destruct (@closure_pct_present df w hours p E) as [Ht ->].
  apply round2_percent, ratio_percent; [|exact Ht].
  split; [apply count_ttr_le|].
  exact (count_ttr_mono (leq_hours hours) notna df w (leq_hours_notna hours)).
Qed.

Lemma closure_pct_mono (df : list record) (w : Z) (h h' p : Q) :
  (h <= h')%Q ->
  closure_pct df w h = Some p ->
  exists p', closure_pct df w h' = Some p' /\ (p <= p')%Q.
Proof.
  intros Hh E.
  pose proof (count_ttr_mono (leq_hours h) (leq_hours h') df w
                (fun o => leq_hours_mono h h' o Hh)) as Hle.
  destruct (@closure_pct_present df w h p E) as [Ht ->].
  assert (Hl : count_ttr (leq_hours h) df w <> 0).
  { intros Hz; apply closure_pct_absent in Hz; congruence. }
  pose proof (count_ttr_le (leq_hours h) df w) as [H0 _].
  unfold closure_pct.
  destruct (Z.eqb_spec (count_ttr notna df w) 0) as [Ez|_]; [lia|].
  destruct (Z.eqb_spec (count_ttr (leq_hours h') df w) 0) as [Ez|_]; [lia|].
  cbn [orb]; eexists; split; [reflexivity|].
  apply round2_le, ratio_le; [exact Hle | exact Ht].
Qed.

Lemma insert_sorted_length {A} (leb : A -> A -> bool) (x : A) (l : list A) :
  length (insert_sorted leb x l) = S (length l).
Proof.
  induction l as [|y r IH]; simpl; [reflexivity|].
  destruct (leb x y); simpl; [reflexivity | now rewrite IH].
Qed.

Lemma sort_by_length {A} (leb : A -> A -> bool) (l : list A) :
  length (sort_by leb l) = length l.
Proof.
  unfold sort_by; induction l as [|x r IH]; simpl; [reflexivity|].
  now rewrite insert_sorted_length, IH.
Qed.

Lemma dropna_length {A} (l : list (option A)) :
  length (dropna l) = length (filter notna l).
Proof.
  unfold dropna; induction l as [|[x|] r IH]; simpl; [reflexivity | |exact IH].
  now rewrite IH.
Qed.

(** A median is missing exactly when every value is. *)
Lemma median_absent (l : list (option Q)) :
  median l = None <-> filter notna l = [].
Proof.
  split; [|apply median_all_missing].
  unfold median, sort_values_Q; rewrite sort_by_length, dropna_length.
  destruct (filter notna l) as [|o r]; [reflexivity|].
  cbn [length]; destruct (Nat.even (S (length r))); discriminate.
Qed.

Lemma assembled_row_mttr_absent (df : list record) (w : Z) :
  MTTR_hrs (assembled_row df w) = None <-> count_ttr notna df w = 0.
Proof.
  rewrite assembled_row_mttr; unfold count_ttr.
  destruct (work_orders_of_week df w) as [|wo wos] eqn:E.
  - unfold week_ttrs; rewrite E; simpl; tauto.
  - rewrite median_absent.
    destruct (filter notna (week_ttrs df w)); simpl; split;
      intros H; try reflexivity; try discriminate; lia.
Qed.

Lemma assembled_row_volume_zero (df : list record) (w : Z) :
  length (work_orders_of_week df w) = 0%nat
  <-> forall r, In r df -> iso_week r <> w.
Proof.
  pose proof (wo_volume_of_week df w) as Hv.
  pose proof (wo_volume_zero df w) as Hz.
  rewrite in_map_iff in Hz; split.
  - intros Hl r Hr Hw; apply (proj1 Hz); [rewrite Hv; lia|].
    exists r; tauto.
  - intros Hn.
    assert (Hv0 : fillna 0 (lookup w (wo_volume_of df)) = 0).
    { apply (proj2 Hz); intros [r [Hw Hr]]; exact (Hn r Hr Hw). }
    rewrite Hv in Hv0; lia.
Qed.

Section WeekRows.
Variable cell : Type.
Variable NA : cell.
Variable to_datetime : cell -> option timestamp.
Variable astype_str : cell -> string.
Variable isocalendar_week : Z -> Z.

Local Abbreviation normalize :=
  (normalize_df NA to_datetime astype_str isocalendar_week).
Local Abbreviation compute :=
  (compute_metrics NA to_datetime astype_str isocalendar_week).
Local Abbreviation unfold_compute :=
  (compute_metrics_unfold cell NA to_datetime astype_str isocalendar_week).

(** X11.  The WO Volume of a week is never negative, and it is 0 exactly
    when no normalised record was completed in that week. *)
Theorem week_volume_zero_iff (df : frame cell) (w : Z) :
  1 <= w <= 52 ->
  exists row v,
    loc w (compute df) = Some row
    /\ WO_Volume row = Some v
    /\ 0 <= v
    /\ (v = 0 <-> forall r, In r (normalize df) -> iso_week r <> w).
Proof.
  rewrite unfold_compute; generalize (normalize df) as records.
  intros records Hw.
  exists (assembled_row records w),
         (Z.of_nat (length (work_orders_of_week records w))).
  split; [exact (@loc_weekly_metrics records w Hw)|].
  split; [apply assembled_row_volume|].
  split; [lia|].
  rewrite <- assembled_row_volume_zero; lia.
Qed.

(** X12.  A closure percentage that is present lies in [0, 100], and
    whenever % <=24 hrs is present so is % <=48 hrs, which is at least as
    large. *)
Theorem closure_pct_bounds (df : frame cell) (w : Z) (row : weekly_row)
    (p : Q) :
  In (w, row) (compute df) ->
  pct_leq_24h row = Some p ->
  (0 <= p <= 100)%Q
  /\ exists q, pct_leq_48h row = Some q /\ (p <= q)%Q /\ (q <= 100)%Q.
Proof.
  rewrite unfold_compute; generalize (normalize df) as records.
  intros records Hin.
  destruct (proj1 (In_weekly_metrics records w row) Hin) as [_ E].
  subst row; destruct (assembled_row_pct records w) as [E24 E48].
  rewrite E24, E48; intros Hp.
  split; [exact (closure_pct_range records w 24 p Hp)|].
  destruct (closure_pct_mono records w 24 48 p) as [q [Hq Hpq]];
    [discriminate | exact Hp|].
  exists q; split; [exact Hq|]; split; [exact Hpq|].
  exact (proj2 (closure_pct_range records w 48 q Hq)).
Qed.

(** X13.  A closure percentage is missing exactly when no work order of
    the week has a time to repair within the threshold: a week whose
    work orders all took longer shows a missing value, not 0. *)
Theorem closure_pct_absent_iff (df : frame cell) (w : Z) :
  1 <= w <= 52 ->
  exists row,
    loc w (compute df) = Some row
    /\ (pct_leq_24h row = None
        <-> count_ttr (leq_hours 24) (normalize df) w = 0)
    /\ (pct_leq_48h row = None
        <-> count_ttr (leq_hours 48) (normalize df) w = 0).
Proof.
  rewrite unfold_compute; generalize (normalize df) as records.
  intros records Hw; exists (assembled_row records w).
  destruct (assembled_row_pct records w) as [E24 E48].
  split; [exact (@loc_weekly_metrics records w Hw)|].
  rewrite E24, E48; split; apply closure_pct_absent.
Qed.

(** X14.  The MTTR of a week is missing exactly when none of the week's
    work orders has a time to repair. *)
Theorem mttr_absent_iff (df : frame cell) (w : Z) :
  1 <= w <= 52 ->
  exists row,
    loc w (compute df) = Some row
    /\ (MTTR_hrs row = None <-> count_ttr notna (normalize df) w = 0).
Proof.
  rewrite unfold_compute; generalize (normalize df) as records.
  intros records Hw; exists (assembled_row records w).
  split; [exact (@loc_weekly_metrics records w Hw)|].
  apply assembled_row_mttr_absent.
Qed.
End WeekRows.

(** ** Weeks without a shared asset *)

Lemma lookup_unique_In {K V} `{EqKey K} (k : K) (v : V) (s : list (K * V)) :
  NoDup (map fst s) -> In (k, v) s -> lookup k s = Some v.
Proof.
  induction s as [|[k' v'] r IH]; simpl; [tauto|].
  intros Hn [E|Hin]; inversion Hn as [|? ? Hk Hr]; subst.
  - injection E as -> ->; now rewrite keq_refl.
  - destruct (keq_spec k' k) as [->|_]; [|exact (IH Hr Hin)].
    exfalso; apply Hk; exact (in_map fst _ _ Hin).
Qed.

Lemma Zsum_zero {A} (f : A -> Z) (l : list A) :
  (forall x, In x l -> f x = 0) -> Zsum (map f l) = 0.
Proof.
  unfold Zsum; induction l as [|x r IH]; intros Hl; [reflexivity|].
  cbn [map fold_right]; rewrite (Hl x (or_introl eq_refl)), IH;
    [reflexivity|].
  intros y Hy; apply Hl; now right.
Qed.

Lemma Qsum_zero (l : list Q) :
  (forall x, In x l -> (x == 0)%Q) -> (Qsum l == 0)%Q.
Proof.
  unfold Qsum; induction l as [|x r IH]; intros Hl; [reflexivity|].
  cbn [fold_right]; rewrite (Hl x (or_introl eq_refl)), IH;
    [reflexivity|].
  intros y Hy; apply Hl; now right.
Qed.

Lemma mean_zero (l : list Q) :
  (forall x, In x l -> (x == 0)%Q) -> (mean l == 0)%Q.
Proof.
  intros Hl; unfold mean, Qdiv; rewrite (Qsum_zero l Hl).
  apply Qmult_0_l.
Qed.

Section NoSharedAsset.
Variable df : list record.
Hypothesis one_tech :
  forall r1 r2, In r1 df -> In r2 df ->
                day r1 = day r2 -> asset_number r1 = asset_number r2 ->
                assigned_to r1 = assigned_to r2.

Lemma no_flag (row : (Z * string) * asset_day) :
  In row (grouped_asset_day_of (step_a df)) -> is_return (snd row) = false.
Proof.
  destruct row as [[d a] g]; intros Hin; cbn [snd].
  assert (El : lookup (d, a) (grouped_asset_day_of (step_a df)) = Some g).
  { apply lookup_unique_In; [|exact Hin].
    unfold grouped_asset_day_of; apply aggregate_NoDup. }
  apply (@single_tech_not_return df d a g El).
  intros r1 r2 H1 H2 D1 A1 D2 A2; apply one_tech; congruence.
Qed.

Lemma no_returned_bots (d : Z) :
  fillna 0 (lookup d (daily_returns_of (step_a df))) = 0.
Proof.
  destruct (lookup d (daily_returns_of (step_a df))) as [v|] eqn:E;
    [|reflexivity].
  apply lookup_In in E; unfold daily_returns_of in E.
  apply in_map_iff in E; destruct E as [g [Eg Hg]].
  injection Eg as _ <-; cbn [fillna].
  apply Zsum_zero; intros row Hrow.
  rewrite no_flag; [reflexivity|].
  unfold groupby in Hg; apply in_map_iff in Hg.
  destruct Hg as [k [<- _]]; cbn [snd] in Hrow.
  apply filter_In in Hrow; tauto.
Qed.

Lemma no_return_week (w : Z) :
  Weekly_Return_pct (assembled_row df w) = Some 0%Q.
Proof.
  unfold assembled_row; cbn [Weekly_Return_pct]; f_equal.
  rewrite lookup_weekly_return.
  destruct (active_days_of_week df w) as [|row rows] eqn:Ea;
    [reflexivity|].
  cbn [fillna]; rewrite <- round2_0; apply round2_comp, mean_zero.
  intros x Hx.
  change (In x (map (fun row => daily_return_pct (snd row)) (row :: rows)))
    in Hx.
  apply in_map_iff in Hx; destruct Hx as [r [<- Hr]].
  rewrite <- Ea in Hr; unfold active_days_of_week in Hr.
  apply filter_In in Hr; destruct Hr as [Hr _].
  unfold daily_of in Hr; apply in_map_iff in Hr.
  destruct Hr as [d [<- _]]; cbn [snd]; unfold daily_return_pct.
  cbn [returned_bots daily_completions]; rewrite no_returned_bots.
  unfold Qdiv; now rewrite !Qmult_0_l.
Qed.
End NoSharedAsset.

(** ** Repeated rows *)

Lemma drop_dups_from_repeat {K} `{EqKey K} {A} (key : A -> K)
    (l1 l2 : list A) (x : A) :
  forall seen,
    In (key x) (map key l1) \/ In (key x) seen ->
    drop_dups_from key seen (l1 ++ x :: l2)
    = drop_dups_from key seen (l1 ++ l2).
Proof.
  induction l1 as [|y r IH]; intros seen Hx.
  - destruct Hx as [[]|Hs]; cbn [app drop_dups_from].
    apply mem_In in Hs; now rewrite Hs.
  - cbn [app drop_dups_from map] in *.
    destruct (mem (key y) seen) eqn:E.
    + apply IH; destruct Hx as [[Hy|Hr]|Hs]; [|tauto|tauto].
      right; rewrite <- Hy; now apply mem_In.
    + f_equal; apply IH; simpl; destruct Hx as [[Hy|Hr]|Hs]; tauto.
Qed.

Lemma drop_duplicates_repeat {K} `{EqKey K} {A} (key : A -> K)
    (l1 l2 : list A) (x : A) :
  In (key x) (map key l1) ->
  drop_duplicates key (l1 ++ x :: l2) = drop_duplicates key (l1 ++ l2).
Proof. intros Hx; apply drop_dups_from_repeat; tauto. Qed.

Lemma unique_repeat {K} `{EqKey K} (l1 l2 : list K) (x : K) :
  In x l1 -> unique (l1 ++ x :: l2) = unique (l1 ++ l2).
Proof.
  intros Hx; unfold unique; apply drop_duplicates_repeat.
  now rewrite map_id.
Qed.

Lemma first_valid_app_some {A} (l r : list (option A)) (v : A) :
  first_valid l = Some v -> first_valid (l ++ r) = Some v.
Proof.
  induction l as [|[x|] l IH]; simpl; [discriminate | tauto | exact IH].
Qed.

Lemma first_valid_none {A} (l : list (option A)) (o : option A) :
  first_valid l = None -> In o l -> o = None.
Proof.
  induction l as [|[x|] l IH]; simpl; [tauto | discriminate|].
  intros E [<-|Hin]; [reflexivity | exact (IH E Hin)].
Qed.

Lemma first_valid_app_none {A} (l r : list (option A)) :
  first_valid l = None -> first_valid (l ++ r) = first_valid r.
Proof.
  induction l as [|[x|] l IH]; simpl; [reflexivity | discriminate | exact IH].
Qed.

Lemma first_valid_repeat {A} (l1 l2 : list (option A)) (o : option A) :
  In o l1 -> first_valid (l1 ++ o :: l2) = first_valid (l1 ++ l2).
Proof.
  intros Ho; destruct (first_valid l1) as [v|] eqn:E.
  - now rewrite !(first_valid_app_some l1 _ v E).
  - rewrite !(first_valid_app_none l1 _ E).
    now rewrite (first_valid_none l1 o E Ho).
Qed.

(** Aggregating after a repeated row: the keys are those of the list
    without it, and a group changes only by holding the row twice. *)
Lemma aggregate_repeat {K} `{EqKey K} {A V} (key : A -> K)
    (f : K * list A -> V) (l1 l2 : list A) (x : A) :
  In x l1 ->
  (forall k g1 g2, In x g1 -> f (k, g1 ++ x :: g2) = f (k, g1 ++ g2)) ->
  map (fun g => (fst g, f g)) (groupby key (l1 ++ x :: l2))
  = map (fun g => (fst g, f g)) (groupby key (l1 ++ l2)).
Proof.
  intros Hx Hf; unfold groupby; rewrite !map_map; cbn [fst].
  rewrite !map_app; cbn [map].
  rewrite (unique_repeat (map key l1) (map key l2) (key x))
    by (now apply in_map).
  apply map_ext; intros k; f_equal.
  rewrite !filter_app; cbn [filter].
  destruct (keq (key x) k) eqn:E; [|reflexivity].
  apply Hf; apply filter_In; tauto.
Qed.

Section RepeatedRow.
Variables l1 l2 : list record.
Variable r : record.
Hypothesis earlier : In r l1.

Lemma step_a_repeat : step_a (l1 ++ r :: l2) = step_a (l1 ++ l2).
Proof.
  unfold step_a; apply drop_duplicates_repeat.
  exact (in_map _ _ _ earlier).
Qed.

Lemma day_to_week_repeat :
  day_to_week_of (l1 ++ r :: l2) = day_to_week_of (l1 ++ l2).
Proof.
  unfold day_to_week_of; f_equal; apply drop_duplicates_repeat.
  exact (in_map _ _ _ earlier).
Qed.

Lemma weekly_return_repeat :
  weekly_return_of (l1 ++ r :: l2) = weekly_return_of (l1 ++ l2).
Proof.
  unfold weekly_return_of, daily_active_weeks.
  now rewrite step_a_repeat, day_to_week_repeat.
Qed.

Lemma wo_volume_repeat :
  wo_volume_of (l1 ++ r :: l2) = wo_volume_of (l1 ++ l2).
Proof.
  unfold wo_volume_of.
  apply (aggregate_repeat iso_week
           (fun g => nunique (map work_order (snd g)))); [exact earlier|].
  intros k g1 g2 Hg; cbn [snd]; unfold nunique.
  rewrite !map_app; cbn [map].
  rewrite (unique_repeat (map work_order g1) (map work_order g2)
             (work_order r)); [reflexivity|].
  exact (in_map _ _ _ Hg).
Qed.

Lemma wo_ttr_repeat : wo_ttr_of (l1 ++ r :: l2) = wo_ttr_of (l1 ++ l2).
Proof.
  unfold wo_ttr_of.
  apply (aggregate_repeat (fun r => (iso_week r, work_order r))
           (fun g => first_valid (map ttr_hours (snd g)))); [exact earlier|].
  intros k g1 g2 Hg; cbn [snd].
  rewrite !map_app; cbn [map]; apply first_valid_repeat.
  exact (in_map _ _ _ Hg).
Qed.

Lemma weekly_metrics_repeat :
  weekly_metrics (l1 ++ r :: l2) = weekly_metrics (l1 ++ l2).
Proof.
  unfold weekly_metrics, weekly_mttr_of, pct_leq.
  now rewrite weekly_return_repeat, wo_volume_repeat, wo_ttr_repeat.
Qed.
End RepeatedRow.

Lemma filter_map_app {A B} (f : A -> option B) (l r : list A) :
  filter_map f (l ++ r) = filter_map f l ++ filter_map f r.
Proof.
  induction l as [|x l IH]; simpl; [reflexivity|].
  destruct (f x); simpl; now rewrite IH.
Qed.

Section RepeatedSheetRow.
Variable cell : Type.
Variable NA : cell.
Variable to_datetime : cell -> option timestamp.
Variable astype_str : cell -> string.
Variable isocalendar_week : Z -> Z.

Local Abbreviation normalize :=
  (normalize_df NA to_datetime astype_str isocalendar_week).
Local Abbreviation compute :=
  (compute_metrics NA to_datetime astype_str isocalendar_week).

(** Creating columns acts on the header alone and on each row alone. *)
Lemma ensure_columns_rowwise (l : list string) :
  forall cols, exists cols' (g : list cell -> list cell),
    forall rs,
      fold_left (ensure_column NA) l {| columns := cols; rows := rs |}
      = {| columns := cols'; rows := map g rs |}.
Proof.
  induction l as [|c r IH]; intros cols.
  - exists cols, (fun row => row); intros rs; cbn [fold_left].
    now rewrite map_id.
  - cbn [fold_left]; unfold ensure_column at 2; cbn [columns rows].
    destruct (mem c cols).
    + exact (IH cols).
    + destruct (IH (cols ++ [c])) as [cols' [g Hg]].
      exists cols',
        (fun row =>
           g (firstn (length cols) (row ++ repeat NA (length cols)) ++ [NA])).
      intros rs; rewrite Hg, map_map; reflexivity.
Qed.

(** The normaliser treats each row on its own: the records of a table
    are those of its rows, in order. *)
Lemma normalize_df_rowwise (cols : list string) :
  exists h : list cell -> option record,
    forall rs,
      normalize {| columns := cols; rows := rs |} = filter_map h rs.
Proof.
  destruct (ensure_columns_rowwise required_columns
              (map (fun c => match lookup c (col_map_of cols) with
                             | Some std => std
                             | None => c
                             end) cols)) as [cols' [g Hg]].
  exists (fun row =>
            let p := parse_row NA to_datetime astype_str cols' (g row) in
            if keep_row p then dated isocalendar_week p else None).
  intros rs; unfold normalize_df, prepare, rename; cbn [columns rows].
  rewrite Hg; cbn [columns rows].
  induction rs as [|row rs IH]; [reflexivity|].
  cbn [map filter filter_map].
  destruct (keep_row (parse_row NA to_datetime astype_str cols' (g row)));
    cbn [filter_map]; [|exact IH].
  destruct (dated isocalendar_week
              (parse_row NA to_datetime astype_str cols' (g row)));
    [f_equal|]; exact IH.
Qed.

(** X16.  A spreadsheet row that repeats an earlier row changes no
    figure of the weekly table. *)
Theorem repeated_row_changes_nothing (cols : list string)
    (before after : list (list cell)) (row : list cell) :
  In row before ->
  compute {| columns := cols; rows := before ++ row :: after |}
  = compute {| columns := cols; rows := before ++ after |}.
Proof.
  intros Hrow; unfold compute_metrics.
  destruct (normalize_df_rowwise cols) as [h Hh].
  rewrite !Hh, !filter_map_app; cbn [filter_map].
  destruct (h row) as [r|] eqn:E; [|reflexivity].
  apply weekly_metrics_repeat.
  apply In_filter_map; exists row; tauto.
Qed.

(** X15.  When no asset is served by two technicians on one day, every
    Weekly Return % of the output is 0. *)
Theorem single_technician_no_return (df : frame cell) (w : Z)
    (row : weekly_row) :
  (forall r1 r2,
      In r1 (normalize df) -> In r2 (normalize df) ->
      day r1 = day r2 -> asset_number r1 = asset_number r2 ->
      assigned_to r1 = assigned_to r2) ->
  In (w, row) (compute df) ->
  Weekly_Return_pct row = Some 0%Q.
Proof.
  rewrite (compute_metrics_unfold cell NA to_datetime astype_str
             isocalendar_week).
  generalize (normalize df) as records; intros records Hone Hin.
  destruct (proj1 (In_weekly_metrics records w row) Hin) as [_ E].
  subst row; exact (no_return_week records Hone w).
Qed.
End RepeatedSheetRow.
